(** * defend.js: a shallow embedding of the interception engine

    The module keeps a handful of registries (construction sessions, the
    proxy table, the release record, the per-class shape record), a process
    wide mode and a replaceable warning sink.  The embedding below follows the
    JavaScript source function by function: module level variables become
    fields of [state], every function that reads or writes them becomes a
    computation in a state-and-exception monad, and the pure helpers
    ([getType], [isValidTypeChange]) become plain functions. *)

From stdpp Require Import base decidable option list strings pretty sorting gmap fin_maps.

Local Open Scope string_scope.

(** ** JavaScript values *)

(** Heap references (object identity) and class (constructor function)
    identity. *)
Abbreviation ref := nat (only parsing).
Abbreviation classid := nat (only parsing).

(** The values the library can be handed.  Numbers are kept as integers: the
    library never computes with them, it only looks at their [typeof].
    Object-like values carry the tag that [typeof] and [Array.isArray] read
    off them, which never changes during the life of an object.  A [Proxy]
    over an ordinary object is itself a [VObject]. *)
Inductive value : Type :=
  | VUndefined
  | VNull
  | VBoolean (b : bool)
  | VNumber (n : Z)
  | VBigInt (n : Z)
  | VString (s : string)
  | VSymbol (description : string)
  | VObject (r : ref)
  | VArray (r : ref)
  | VFunction (c : classid).

(** Property keys are strings or symbols. *)
Inductive key : Type :=
  | KString (s : string)
  | KSymbol (description : string).

#[global] Instance value_eq_dec : EqDecision value.
Proof. solve_decision. Defined.

#[global] Instance key_eq_dec : EqDecision key.
Proof. solve_decision. Defined.

(** The [typeof] operator. *)
Definition typeof (o : value) : string :=
  match o with
  | VUndefined => "undefined"
  | VNull => "object"
  | VBoolean _ => "boolean"
  | VNumber _ => "number"
  | VBigInt _ => "bigint"
  | VString _ => "string"
  | VSymbol _ => "symbol"
  | VObject _ => "object"
  | VArray _ => "object"
  | VFunction _ => "function"
  end.

Definition typeof_key (k : key) : string :=
  match k with
  | KString _ => "string"
  | KSymbol _ => "symbol"
  end.

Definition Array_isArray (o : value) : bool :=
  match o with
  | VArray _ => true
  | _ => false
  end.

(** Strict equality on strings, [a === b]. *)
Definition streq (a b : string) : bool := bool_decide (a = b).

(** Substitute for [typeof] with two changes: null returns "null" and an
    array returns "array". *)
Definition getType (o : value) : string :=
  if bool_decide (o = VNull) then "null"
  else if Array_isArray o then "array"
  else typeof o.

(** For a defended object property, check if the changing type is valid. *)
Definition isValidTypeChange (from to : value) : bool :=
  let fromType := getType from in
  let toType := getType to in
  if streq fromType "null" || streq toType "null" then true
  else if streq fromType "undefined" || streq toType "undefined" then false
  else streq fromType toType.

(** The structural classification of the specification, used to state what
    [getType] computes. *)
Inductive classification : Type :=
  | CNull | CArray | CBoolean | CNumber | CString | CObject | CFunction
  | CSymbol | CUndefined | CBigInt.

#[global] Instance classification_eq_dec : EqDecision classification.
Proof. solve_decision. Defined.

Definition classify (o : value) : classification :=
  match o with
  | VUndefined => CUndefined
  | VNull => CNull
  | VBoolean _ => CBoolean
  | VNumber _ => CNumber
  | VBigInt _ => CBigInt
  | VString _ => CString
  | VSymbol _ => CSymbol
  | VObject _ => CObject
  | VArray _ => CArray
  | VFunction _ => CFunction
  end.

Definition classification_name (c : classification) : string :=
  match c with
  | CNull => "null"
  | CArray => "array"
  | CBoolean => "boolean"
  | CNumber => "number"
  | CString => "string"
  | CObject => "object"
  | CFunction => "function"
  | CSymbol => "symbol"
  | CUndefined => "undefined"
  | CBigInt => "bigint"
  end.

(** ** String conversion and exceptions *)

(** The errors the module and its clients can throw. *)
Inductive exn : Type :=
  | TypeError (msg : string)
  | ReferenceError (msg : string)
  | Error (msg : string)
  | Thrown (v : value).

(** A line feed, written [\n] in the source. *)
Definition nl : string := String (Ascii.ascii_of_nat 10) EmptyString.

(** [`${key}`]: a template literal converts with ToString, which refuses
    symbols. *)
Definition key_to_string (k : key) : option string :=
  match k with
  | KString s => Some s
  | KSymbol _ => None
  end.

(** [Symbol.prototype.toString], e.g. [Symbol(foo)]. *)
Definition symbol_toString (description : string) : string :=
  "Symbol(" +:+ description +:+ ")".

(** Truthiness of a string. *)
Definition truthy_string (s : string) : bool := negb (streq s "").

(** ** Classes, objects and the heap *)

(** Constructor bodies of client classes are straight-line code over [this]:
    property assignments and [throw].  This is the part of the language in
    which the examples of the repository write their constructors; a
    constructor that itself constructs other objects, reads from [this], or
    returns a value of its own is not expressible, and what is proved about
    construction is proved for the constructors that are. *)
Inductive stmt : Type :=
  | SAssign (k : key) (v : value)
  | SThrow (v : value).

(** A client class (a constructor function).  [prototype] lists what an
    instance reaches through its whole prototype chain, the members of
    [Object.prototype] included, each with the value that a read yields, the
    nearest first.  As for the methods of a class declaration, none of it is
    enumerable.  What an assignment to an inherited member does depends on
    the member (a method is shadowed by a new own property, an accessor runs
    its setter or refuses the assignment); [put_property] below treats every
    inherited member as a method, so whatever is proved about the outcome of
    an assignment is stated for own properties and for keys that are absent
    from the whole chain. *)
Record class : Type := {
  class_name : string;
  extends_DefendedBase : bool;
  prototype : list (key * value);
  constructor_body : list value → list stmt;
}.

(** An ordinary object: the class whose prototype it was created from, its
    own properties in creation order, and whether it is still extensible
    (it is until [Object.seal] or [Object.preventExtensions] reaches it). *)
Record object : Type := {
  obj_class : classid;
  obj_props : list (key * value);
  obj_extensible : bool;
}.

(** A heap cell is an ordinary object or a [Proxy] (with the defend handler)
    over a target. *)
Inductive cell : Type :=
  | Ordinary (o : object)
  | Proxy (target : ref).

(** ** Insertion-ordered containers: [Map], [Set] and own-property lists *)

Section alist.
Context {K V : Type} `{EqDecision K}.

Fixpoint al_get (m : list (K * V)) (k : K) : option V :=
  match m with
  | [] => None
  | (k', v) :: m' => if decide (k' = k) then Some v else al_get m' k
  end.

Definition al_has (m : list (K * V)) (k : K) : bool :=
  bool_decide (is_Some (al_get m k)).

(** An existing key keeps its position, a new one goes last. *)
Fixpoint al_set (m : list (K * V)) (k : K) (v : V) : list (K * V) :=
  match m with
  | [] => [(k, v)]
  | (k', v') :: m' =>
      if decide (k' = k) then (k, v) :: m' else (k', v') :: al_set m' k v
  end.

Fixpoint al_delete (m : list (K * V)) (k : K) : list (K * V) :=
  match m with
  | [] => []
  | (k', v') :: m' =>
      if decide (k' = k) then al_delete m' k else (k', v') :: al_delete m' k
  end.

Definition al_keys (m : list (K * V)) : list K := m.*1.
End alist.

(** A JavaScript [Set] of strings, in insertion order. *)
Definition Set_has (s : list string) (k : string) : bool := bool_decide (k ∈ s).

Definition Set_add (s : list string) (k : string) : list string :=
  if Set_has s k then s else s ++ [k].

Definition Set_delete (s : list string) (k : string) : list string :=
  filter (λ x, x ≠ k) s.

(** [new Set(l)]. *)
Definition Set_of_list (l : list string) : list string := foldl Set_add [] l.

(** [l.join(sep)]. *)
Definition join (sep : string) (l : list string) : string := String.concat sep l.

(** ** Module state *)

(** One call of the warning sink: which sink was installed ([None] is the
    built-in one, which prints ["[Defend-check] " + msg + " @"] followed by
    the call stack to the console), the message, and the call stack at the
    time of the call. *)
Record report : Type := {
  rep_sink : option value;
  rep_msg : string;
  rep_stack : string;
}.

(** The module-level variables of defend.js, followed by the part of the host
    that the module touches: the heap, the call stack that
    [(new Error()).stack] would show at this moment, the number of timers
    handed out by [setTimeout], and the calls made to the warning sink so
    far. *)
Record state : Type := {
  mode : string;
  warningCallback : option value;
  ctorObjectToProxy : list (ref * ref);
  ctorProxyToObject : list (ref * ref);
  proxyToObject : gmap ref ref;
  releasedObjects : gmap ref string;
  typeProperties : gmap classid (list string);
  checkTimerId : Z;
  heap : gmap ref cell;
  callStack : string;
  timers : Z;
  reports : list report;
}.

Definition VALID_MODES : list string := ["defend"; "seal"; "off"].

(** Valid keys to return undefined for in defended property accesses. *)
Definition VALID_GET_MISSING_KEYS : list string := ["then"; "splice"].

Definition VALID_GET_MISSING_KEYS_has (k : key) : bool :=
  match k with
  | KString s => bool_decide (s ∈ VALID_GET_MISSING_KEYS)
  | KSymbol _ => false
  end.

(** The state of a freshly loaded module in an empty heap. *)
Definition initial_state : state := {|
  mode := "defend";
  warningCallback := None;
  ctorObjectToProxy := [];
  ctorProxyToObject := [];
  proxyToObject := ∅;
  releasedObjects := ∅;
  typeProperties := ∅;
  checkTimerId := (-1)%Z;
  heap := ∅;
  callStack := "";
  timers := 0%Z;
  reports := [];
|}.

Definition set_mode (m : string) (st : state) : state :=
  {| mode := m; warningCallback := warningCallback st;
     ctorObjectToProxy := ctorObjectToProxy st; ctorProxyToObject := ctorProxyToObject st;
     proxyToObject := proxyToObject st; releasedObjects := releasedObjects st;
     typeProperties := typeProperties st; checkTimerId := checkTimerId st;
     heap := heap st; callStack := callStack st; timers := timers st; reports := reports st |}.

Definition set_warningCallback (f : option value) (st : state) : state :=
  {| mode := mode st; warningCallback := f;
     ctorObjectToProxy := ctorObjectToProxy st; ctorProxyToObject := ctorProxyToObject st;
     proxyToObject := proxyToObject st; releasedObjects := releasedObjects st;
     typeProperties := typeProperties st; checkTimerId := checkTimerId st;
     heap := heap st; callStack := callStack st; timers := timers st; reports := reports st |}.

Definition set_ctorObjectToProxy (m : list (ref * ref)) (st : state) : state :=
  {| mode := mode st; warningCallback := warningCallback st;
     ctorObjectToProxy := m; ctorProxyToObject := ctorProxyToObject st;
     proxyToObject := proxyToObject st; releasedObjects := releasedObjects st;
     typeProperties := typeProperties st; checkTimerId := checkTimerId st;
     heap := heap st; callStack := callStack st; timers := timers st; reports := reports st |}.

Definition set_ctorProxyToObject (m : list (ref * ref)) (st : state) : state :=
  {| mode := mode st; warningCallback := warningCallback st;
     ctorObjectToProxy := ctorObjectToProxy st; ctorProxyToObject := m;
     proxyToObject := proxyToObject st; releasedObjects := releasedObjects st;
     typeProperties := typeProperties st; checkTimerId := checkTimerId st;
     heap := heap st; callStack := callStack st; timers := timers st; reports := reports st |}.

Definition set_proxyToObject (m : gmap ref ref) (st : state) : state :=
  {| mode := mode st; warningCallback := warningCallback st;
     ctorObjectToProxy := ctorObjectToProxy st; ctorProxyToObject := ctorProxyToObject st;
     proxyToObject := m; releasedObjects := releasedObjects st;
     typeProperties := typeProperties st; checkTimerId := checkTimerId st;
     heap := heap st; callStack := callStack st; timers := timers st; reports := reports st |}.

Definition set_releasedObjects (m : gmap ref string) (st : state) : state :=
  {| mode := mode st; warningCallback := warningCallback st;
     ctorObjectToProxy := ctorObjectToProxy st; ctorProxyToObject := ctorProxyToObject st;
     proxyToObject := proxyToObject st; releasedObjects := m;
     typeProperties := typeProperties st; checkTimerId := checkTimerId st;
     heap := heap st; callStack := callStack st; timers := timers st; reports := reports st |}.

Definition set_typeProperties (m : gmap classid (list string)) (st : state) : state :=
  {| mode := mode st; warningCallback := warningCallback st;
     ctorObjectToProxy := ctorObjectToProxy st; ctorProxyToObject := ctorProxyToObject st;
     proxyToObject := proxyToObject st; releasedObjects := releasedObjects st;
     typeProperties := m; checkTimerId := checkTimerId st;
     heap := heap st; callStack := callStack st; timers := timers st; reports := reports st |}.

Definition set_checkTimerId (id : Z) (st : state) : state :=
  {| mode := mode st; warningCallback := warningCallback st;
     ctorObjectToProxy := ctorObjectToProxy st; ctorProxyToObject := ctorProxyToObject st;
     proxyToObject := proxyToObject st; releasedObjects := releasedObjects st;
     typeProperties := typeProperties st; checkTimerId := id;
     heap := heap st; callStack := callStack st; timers := timers st; reports := reports st |}.

Definition set_heap (h : gmap ref cell) (st : state) : state :=
  {| mode := mode st; warningCallback := warningCallback st;
     ctorObjectToProxy := ctorObjectToProxy st; ctorProxyToObject := ctorProxyToObject st;
     proxyToObject := proxyToObject st; releasedObjects := releasedObjects st;
     typeProperties := typeProperties st; checkTimerId := checkTimerId st;
     heap := h; callStack := callStack st; timers := timers st; reports := reports st |}.

Definition set_callStack (s : string) (st : state) : state :=
  {| mode := mode st; warningCallback := warningCallback st;
     ctorObjectToProxy := ctorObjectToProxy st; ctorProxyToObject := ctorProxyToObject st;
     proxyToObject := proxyToObject st; releasedObjects := releasedObjects st;
     typeProperties := typeProperties st; checkTimerId := checkTimerId st;
     heap := heap st; callStack := s; timers := timers st; reports := reports st |}.

Definition set_timers (n : Z) (st : state) : state :=
  {| mode := mode st; warningCallback := warningCallback st;
     ctorObjectToProxy := ctorObjectToProxy st; ctorProxyToObject := ctorProxyToObject st;
     proxyToObject := proxyToObject st; releasedObjects := releasedObjects st;
     typeProperties := typeProperties st; checkTimerId := checkTimerId st;
     heap := heap st; callStack := callStack st; timers := n; reports := reports st |}.

Definition set_reports (l : list report) (st : state) : state :=
  {| mode := mode st; warningCallback := warningCallback st;
     ctorObjectToProxy := ctorObjectToProxy st; ctorProxyToObject := ctorProxyToObject st;
     proxyToObject := proxyToObject st; releasedObjects := releasedObjects st;
     typeProperties := typeProperties st; checkTimerId := checkTimerId st;
     heap := heap st; callStack := callStack st; timers := timers st; reports := l |}.

(** ** The state-and-exception monad *)

(** How a piece of JavaScript finishes: with a value or with a thrown error. *)
Inductive completion (A : Type) : Type :=
  | Normal (a : A)
  | Throw (e : exn).
Arguments Normal {A} a.
Arguments Throw {A} e.

Definition M (A : Type) : Type := state → completion A * state.

#[global] Instance M_ret : MRet M := λ A a st, (Normal a, st).

#[global] Instance M_bind : MBind M := λ A B f m st,
  match m st with
  | (Normal a, st') => f a st'
  | (Throw e, st') => (Throw e, st')
  end.

Definition throw {A} (e : exn) : M A := λ st, (Throw e, st).

Definition gets {A} (f : state → A) : M A := λ st, (Normal (f st), st).

Definition modify (f : state → state) : M unit := λ st, (Normal tt, f st).

(** [try { m } catch (e) { handler e }]. *)
Definition try_catch {A} (m : M A) (handler : exn → M A) : M A := λ st,
  match m st with
  | (Normal a, st') => (Normal a, st')
  | (Throw e, st') => handler e st'
  end.

(** [if (c) { m }] for a statement. *)
Definition when (c : bool) (m : M unit) : M unit := if c then m else mret tt.

(** ** The module's functions *)

(** What the module is given from outside: the client's classes; the
    host's string conversion for the values whose text the module never
    inspects (numbers and BigInts, and objects, arrays and functions, whose
    conversion calls their own [toString]; [None] when that call throws);
    and what a warning callback installed by the client does when it is
    called with a message ([None] when it returns normally, the error when
    it throws one, which the documentation of [SetWarningCallback] allows).
    Of the client's own code (a [toString], a callback) the model keeps the
    result: what such code does besides is the client's, not the
    module's. *)
Class Host : Type := {
  classes : classid → class;
  host_to_string : value → option string;
  callback_throws : value → string → option exn;
}.

Section defend.
Context {host : Host}.

(** [`${v}`]. *)
Definition ToString (v : value) : option string :=
  match v with
  | VUndefined => Some "undefined"
  | VNull => Some "null"
  | VBoolean b => Some (if b then "true" else "false")
  | VString s => Some s
  | VSymbol _ => None
  | _ => host_to_string v
  end.

Definition template_key (k : key) : M string :=
  match key_to_string k with
  | Some s => mret s
  | None => throw (TypeError "Cannot convert a Symbol value to a string")
  end.

(** The target of a value that is a wrapper. *)
Definition wrapper_target (st : state) (v : value) : option ref :=
  match v with
  | VObject r =>
      match heap st !! r with
      | Some (Proxy target) => Some target
      | _ => None
      end
  | _ => None
  end.

(** *** Ordinary objects: [k in o], [o[k]], [o[k] = v] *)

Definition has_property_in (st : state) (r : ref) (k : key) : bool :=
  match heap st !! r with
  | Some (Ordinary o) => al_has (obj_props o) k || al_has (prototype (classes (obj_class o))) k
  | _ => false
  end.

Definition get_property_in (st : state) (r : ref) (k : key) : value :=
  match heap st !! r with
  | Some (Ordinary o) =>
      match al_get (obj_props o) k with
      | Some v => v
      | None => default VUndefined (al_get (prototype (classes (obj_class o))) k)
      end
  | _ => VUndefined
  end.


Definition has_property (r : ref) (k : key) : M bool := gets (λ st, has_property_in st r k).

Definition get_property (r : ref) (k : key) : M value := gets (λ st, get_property_in st r k).

(** Assignment in strict-mode code: an own property is updated, a new one
    is created on the object itself, which fails on an object that is no
    longer extensible.  An inherited member is taken to be a method, which
    the new own property shadows (see [class]). *)
Definition put_property (r : ref) (k : key) (v : value) : M unit :=
  c ← gets (λ st, heap st !! r);
  match c with
  | Some (Ordinary o) =>
      if al_has (obj_props o) k || obj_extensible o then
        modify (λ st, set_heap (<[r := Ordinary {| obj_class := obj_class o;
                                                   obj_props := al_set (obj_props o) k v;
                                                   obj_extensible := obj_extensible o |}]> (heap st)) st)
      else throw (TypeError "Cannot add property, object is not extensible")
  | _ => throw (TypeError "Cannot set properties of undefined")
  end.

(** The string keys among the own properties, in creation order. *)
Definition string_keys (props : list (key * value)) : list string :=
  omap (λ kv, key_to_string kv.1) props.

(** An array index: the canonical decimal text of an integer below
    [2^32 - 1]. *)
Definition digit (a : Ascii.ascii) : option N :=
  let n := Ascii.N_of_ascii a in
  if bool_decide (48 ≤ n ≤ 57)%N then Some (n - 48)%N else None.

Fixpoint parse_digits (s : string) (acc : N) : option N :=
  match s with
  | EmptyString => Some acc
  | String a s' =>
      match digit a with
      | Some d => parse_digits s' (10 * acc + d)%N
      | None => None
      end
  end.

Definition array_index (s : string) : option N :=
  match s with
  | EmptyString => None
  | _ =>
      match parse_digits s 0 with
      | Some n => if bool_decide (pretty n = s) && bool_decide (n < 4294967295)%N
                  then Some n else None
      | None => None
      end
  end.

Definition index_le (a b : N * string) : Prop := (a.1 ≤ b.1)%N.

#[global] Instance index_le_dec (a b : N * string) : Decision (index_le a b).
Proof. unfold index_le. apply _. Defined.

(** The order in which an object lists its own string keys: the array
    indices in ascending order, then the other keys in creation order. *)
Definition own_keys_order (keys : list string) : list string :=
  (merge_sort index_le (omap (λ k, n ← array_index k; Some (n, k)) keys)).*2
  ++ filter (λ k, array_index k = None) keys.

(** [for (const k in o)]: the enumerable string keys, which are the own
    ones, nothing inherited being enumerable; a proxy without an [ownKeys]
    trap shows those of its target. *)
Definition for_in_keys (st : state) (o : value) : list string :=
  match o with
  | VObject r =>
      match heap st !! r with
      | Some (Ordinary obj) => own_keys_order (string_keys (obj_props obj))
      | Some (Proxy t) =>
          match heap st !! t with
          | Some (Ordinary obj) => own_keys_order (string_keys (obj_props obj))
          | _ => []
          end
      | None => []
      end
  | _ => []
  end.

(** [Object.create(C.prototype)] and [new Proxy(target, defendHandler)]. *)
Definition alloc (c : cell) : M ref :=
  r ← gets (λ st, fresh (dom (heap st)));
  modify (λ st, set_heap (<[r := c]> (heap st)) st);;
  mret r.

Definition Object_create (c : classid) : M ref :=
  alloc (Ordinary {| obj_class := c; obj_props := []; obj_extensible := true |}).

Definition new_Proxy (target : ref) : M ref := alloc (Proxy target).

(** *** Diagnostics *)

Definition GetCallStack : M string := gets callStack.

(** What the installed sink throws when called with [msg], if anything; the
    built-in sink, [console.warn], returns normally. *)
Definition sink_throws (st : state) (msg : string) : option exn :=
  match warningCallback st with
  | None => None
  | Some f => callback_throws f msg
  end.

(** A call [logDefendedObjectWarning(msg)] of whichever sink is installed. *)
Definition logDefendedObjectWarning (msg : string) : M unit :=
  f ← gets warningCallback;
  stack ← GetCallStack;
  modify (λ st, set_reports (reports st ++ [{| rep_sink := f; rep_msg := msg; rep_stack := stack |}]) st);;
  thrown ← gets (λ st, sink_throws st msg);
  match thrown with
  | None => mret tt
  | Some e => throw e
  end.

(** How a computation completes once [msg] has been reported: with [a],
    unless the sink threw. *)
Definition reported {A} (st : state) (msg : string) (a : A) : completion A :=
  match sink_throws st msg with
  | None => Normal a
  | Some e => Throw e
  end.

(** The installed sink returns normally, whatever the message. *)
Definition sink_returns (st : state) : Prop := ∀ msg, sink_throws st msg = None.


(** The state after one call of the sink. *)
Definition add_report (msg : string) (st : state) : state :=
  set_reports (reports st ++ [{| rep_sink := warningCallback st; rep_msg := msg;
                                 rep_stack := callStack st |}]) st.

Definition SetMode (m : value) : M unit :=
  match m with
  | VString s =>
      if bool_decide (s ∈ VALID_MODES) then modify (set_mode s)
      else throw (Error "invalid mode")
  | _ => throw (Error "invalid mode")
  end.

Definition SetWarningCallback (f : value) : M unit :=
  if negb (streq (typeof f) "function") then throw (TypeError "expected function")
  else modify (set_warningCallback (Some f)).

(** The name of the function [o], [o.name]. *)
Definition function_name (o : value) : string :=
  match o with
  | VFunction c => class_name (classes c)
  | _ => ""
  end.

(** [o.constructor.name] for an object: the member [constructor] as the
    object holds it, an own property before the one of the prototype, and
    the name of the function found there, or the string that an object
    found there holds as its [name]; a primitive has no [name].  The module
    asks for the name of instances, never of their wrappers. *)
Definition constructor_name (st : state) (o : value) : string :=
  match o with
  | VObject r =>
      match get_property_in st (default r (wrapper_target st o)) (KString "constructor") with
      | VFunction c => function_name (VFunction c)
      | VObject r' =>
          match get_property_in st (default r' (wrapper_target st (VObject r'))) (KString "name") with
          | VString s => s
          | _ => ""
          end
      | _ => ""
      end
  | _ => ""
  end.

(** Try to get a useful name from an object. *)
Definition getName_in (st : state) (o : value) : string :=
  if bool_decide (o = VNull) then "null" else
  let type := typeof o in
  if streq type "undefined" then "undefined" else
  if streq type "boolean" || streq type "number" || streq type "string" then
    "<" +:+ type +:+ ">" else
  if Array_isArray o then "<array>" else
  if streq type "symbol" then
    match o with
    | VSymbol d => "<" +:+ symbol_toString d +:+ ">"
    | _ => "<unknown>"
    end else
  if streq type "function" then
    (if truthy_string (function_name o) && negb (streq (function_name o) "Function")
     then function_name o else "<anonymous function>") else
  if streq type "object" then
    (if truthy_string (constructor_name st o) && negb (streq (constructor_name st o) "Object")
     then constructor_name st o else "<anonymous object>") else
  "<unknown>".

Definition getName (o : value) : M string := gets (λ st, getName_in st o).

(** *** The proxy handler *)

(** The texts of the handler's warnings and errors. *)
Definition missing_get_message (k name : string) : string :=
  "Accessed missing property '" +:+ k +:+ "' from defended object '" +:+ name
  +:+ "', returning undefined".

Definition released_get_message (k name context : string) : string :=
  "Accessed property '" +:+ k +:+ "' on a released object '" +:+ name +:+ "'" +:+ nl
  +:+ "Object was originally released at: " +:+ context +:+ ")" +:+ nl
  +:+ "Call stack at access: ".

Definition released_set_message (k name context : string) : string :=
  "Set property '" +:+ k +:+ "' on a released object '" +:+ name +:+ "'" +:+ nl
  +:+ "Object was originally released at: " +:+ context +:+ ")" +:+ nl
  +:+ "Call stack at access: ".

Definition nonexistent_set_message (k v name : string) : string :=
  "Set non-existent property '" +:+ k +:+ "' to '" +:+ v
  +:+ "' on defended object '" +:+ name +:+ "'".

Definition type_change_message (fromType k toType name : string) : string :=
  "Set '" +:+ fromType +:+ "' property '" +:+ k +:+ "' to type '" +:+ toType
  +:+ "' on defended object '" +:+ name +:+ "'".

Definition delete_message (k name : string) : string :=
  "Cannot delete property '" +:+ k +:+ "' from defended object '" +:+ name +:+ "'".

Definition define_message (k name : string) : string :=
  "Cannot define property '" +:+ k +:+ "' on defended object '" +:+ name +:+ "'".

Definition defendHandler_get (target : ref) (key : key) : M value :=
  inTarget ← has_property target key;
  when (negb inTarget && negb (streq (typeof_key key) "symbol")
        && negb (VALID_GET_MISSING_KEYS_has key))
    (k ← template_key key;
     name ← getName (VObject target);
     logDefendedObjectWarning (missing_get_message k name));;
  released ← gets (λ st, releasedObjects st !! target);
  when (bool_decide (is_Some released) && negb (streq (typeof_key key) "symbol")
        && negb (VALID_GET_MISSING_KEYS_has key))
    (k ← template_key key;
     name ← getName (VObject target);
     logDefendedObjectWarning (released_get_message k name (default "undefined" released)));;
  get_property target key.

(** [`${value}`].  A primitive converts by itself.  An object is asked for
    its [Symbol.toPrimitive] member and, when it has none, for its
    [toString], and for its [valueOf] when that is no function; the call of
    the member found gives the text (the host's, [None] when it throws).
    Of a wrapper these members are read through the wrapper's own [get]
    trap. *)
Definition template_value (v : value) : M string :=
  target ← gets (λ st, wrapper_target st v);
  match target with
  | Some target =>
      exotic ← defendHandler_get target (KSymbol "Symbol.toPrimitive");
      when (bool_decide (exotic = VUndefined ∨ exotic = VNull))
        (toString ← defendHandler_get target (KString "toString");
         when (negb (streq (typeof toString) "function"))
           (defendHandler_get target (KString "valueOf");; mret tt))
  | None => mret tt
  end;;
  match ToString v with
  | Some s => mret s
  | None =>
      match v with
      | VSymbol _ => throw (TypeError "Cannot convert a Symbol value to a string")
      | _ => throw (TypeError "Cannot convert object to primitive value")
      end
  end.

Definition defendHandler_set (target : ref) (key : key) (value : value) : M bool :=
  released ← gets (λ st, releasedObjects st !! target);
  inTarget ← has_property target key;
  inCtor ← gets (λ st, al_has (ctorObjectToProxy st) target);
  current ← get_property target key;
  ok ← (if bool_decide (is_Some released) then
          k ← template_key key;
          name ← getName (VObject target);
          logDefendedObjectWarning (released_set_message k name (default "undefined" released));;
          mret false
        else if negb inTarget && negb inCtor then
          k ← template_key key;
          v ← template_value value;
          name ← getName (VObject target);
          logDefendedObjectWarning (nonexistent_set_message k v name);;
          mret false
        else if negb (isValidTypeChange current value) && negb inCtor then
          k ← template_key key;
          name ← getName (VObject target);
          logDefendedObjectWarning (type_change_message (getType current) k (getType value) name);;
          mret false
        else mret true);
  when ok (put_property target key value);;
  mret true.

Definition defendHandler_deleteProperty (target : ref) (key : key) : M bool :=
  k ← template_key key;
  name ← getName (VObject target);
  throw (ReferenceError (delete_message k name)).

Definition defendHandler_defineProperty (target : ref) (key : key) (desc : value) : M bool :=
  k ← template_key key;
  name ← getName (VObject target);
  throw (ReferenceError (define_message k name)).

(** *** Property operations as client code performs them *)

(** [o[k]], [o[k] = v], [delete o[k]] and [Object.defineProperty(o, k, desc)]
    on a reference: a proxy routes them to its handler, an ordinary object
    performs them itself. *)
Definition read (o : ref) (k : key) : M value :=
  c ← gets (λ st, heap st !! o);
  match c with
  | Some (Proxy target) => defendHandler_get target k
  | _ => get_property o k
  end.

Definition assign (o : ref) (k : key) (v : value) : M unit :=
  c ← gets (λ st, heap st !! o);
  match c with
  | Some (Proxy target) =>
      ok ← defendHandler_set target k v;
      if (ok : bool) then mret tt
      else (throw (TypeError "'set' on proxy: trap returned falsish") : M unit)
  | _ => put_property o k v
  end.

Definition delete_property (o : ref) (k : key) : M bool :=
  c ← gets (λ st, heap st !! o);
  match c with
  | Some (Proxy target) => defendHandler_deleteProperty target k
  | Some (Ordinary obj) =>
      if obj_extensible obj || negb (al_has (obj_props obj) k) then
        modify (λ st, set_heap (<[o := Ordinary {| obj_class := obj_class obj;
                                                   obj_props := al_delete (obj_props obj) k;
                                                   obj_extensible := obj_extensible obj |}]> (heap st)) st);;
        mret true
      else throw (TypeError "Cannot delete property")
  | None => throw (TypeError "Cannot convert undefined or null to object")
  end.

Definition define_property (o : ref) (k : key) (desc : value) : M bool :=
  c ← gets (λ st, heap st !! o);
  match c with
  | Some (Proxy target) => defendHandler_defineProperty target k desc
  | _ => put_property o k desc;; mret true
  end.

(** *** Construction *)

(** [setTimeout(f, 0)]: the host hands out the next timer id. *)
Definition setTimeout : M Z :=
  n ← gets timers;
  modify (set_timers (n + 1)%Z);;
  mret (n + 1)%Z.

(** The constructor of [DefendedBase], called with [new.target]; its result
    is what the constructor returns ([undefined] leaves [this] alone). *)
Definition DefendedBase_constructor (newTarget : classid) : M value :=
  m ← gets mode;
  if negb (streq m "defend") then mret VUndefined
  else
    realObject ← Object_create newTarget;
    proxy ← new_Proxy realObject;
    modify (λ st, set_ctorObjectToProxy (al_set (ctorObjectToProxy st) realObject proxy) st);;
    modify (λ st, set_ctorProxyToObject (al_set (ctorProxyToObject st) proxy realObject) st);;
    modify (λ st, set_proxyToObject (<[proxy := realObject]> (proxyToObject st)) st);;
    id ← gets checkTimerId;
    when (bool_decide (id = (-1)%Z)) (id' ← setTimeout; modify (set_checkTimerId id'));;
    mret (VObject proxy).

Fixpoint run_body (this : ref) (body : list stmt) : M unit :=
  match body with
  | [] => mret tt
  | SAssign k v :: rest => assign this k v;; run_body this rest
  | SThrow v :: _ => throw (Thrown v)
  end.

(** [new C(...args)]: the ordinary [this] is created first; a class that
    extends [DefendedBase] runs the base constructor, and an object
    returned by it replaces [this]; then the body of the class runs. *)
Definition construct (c : classid) (args : list value) : M value :=
  this0 ← Object_create c;
  r ← (if extends_DefendedBase (classes c) then DefendedBase_constructor c
       else mret VUndefined);
  let this := match r with VObject p => p | _ => this0 end in
  run_body this (constructor_body (classes c) args);;
  mret (VObject this).

(** [!o]. *)
Definition falsy (o : value) : bool :=
  match o with
  | VUndefined | VNull => true
  | VBoolean b => negb b
  | VNumber n | VBigInt n => bool_decide (n = 0%Z)
  | VString s => streq s ""
  | _ => false
  end.

(** [o instanceof DefendedBase]; a proxy without a [getPrototypeOf] trap
    answers for its target. *)
Definition instanceof_DefendedBase (st : state) (o : value) : bool :=
  match o with
  | VObject r =>
      match heap st !! r with
      | Some (Ordinary obj) => extends_DefendedBase (classes (obj_class obj))
      | Some (Proxy t) =>
          match heap st !! t with
          | Some (Ordinary obj) => extends_DefendedBase (classes (obj_class obj))
          | _ => false
          end
      | None => false
      end
  | _ => false
  end.

Definition set_extensible (r : ref) (b : bool) (st : state) : state :=
  match heap st !! r with
  | Some (Ordinary obj) =>
      set_heap (<[r := Ordinary {| obj_class := obj_class obj; obj_props := obj_props obj;
                                   obj_extensible := b |}]> (heap st)) st
  | _ => st
  end.

(** [Object.seal(o)].  On a proxy, preventing extensions is forwarded to
    the target, after which every own key is redefined through the
    (throwing) [defineProperty] trap. *)
Definition Object_seal (o : value) : M value :=
  match o with
  | VObject r =>
      c ← gets (λ st, heap st !! r);
      match c with
      | Some (Ordinary _) => modify (set_extensible r false);; mret o
      | Some (Proxy t) =>
          modify (set_extensible t false);;
          tc ← gets (λ st, heap st !! t);
          match tc with
          | Some (Ordinary obj) =>
              match obj_props obj with
              | [] => mret o
              | (k, _) :: _ => defendHandler_defineProperty t k VUndefined;; mret o
              end
          | _ => mret o
          end
      | None => mret o
      end
  | _ => mret o
  end.

(** Lookup of a value in a [Map] or [WeakMap] keyed by object identity. *)
Definition Map_get {V} (m : list (ref * V)) (o : value) : option V :=
  match o with
  | VObject r => al_get m r
  | _ => None
  end.

Definition WeakMap_get {V} (m : gmap ref V) (o : value) : option V :=
  match o with
  | VObject r => m !! r
  | _ => None
  end.

Definition Defend (o : value) : M value :=
  if falsy o || negb (streq (typeof o) "object") then throw (TypeError "expected object")
  else
    m ← gets mode;
    derived ← gets (λ st, instanceof_DefendedBase st o);
    if streq m "defend" && derived then
      entry ← gets (λ st, Map_get (ctorProxyToObject st) o);
      match entry, o with
      | Some realObject, VObject proxy =>
          modify (λ st, set_ctorProxyToObject (al_delete (ctorProxyToObject st) proxy) st);;
          modify (λ st, set_ctorObjectToProxy (al_delete (ctorObjectToProxy st) realObject) st);;
          mret o
      | _, _ => mret o
      end
    else if streq m "seal" then Object_seal o
    else mret o.

(** *** Shape records *)

Definition property_set (st : state) (o : value) : list string :=
  foldl Set_add [] (for_in_keys st o).

Definition GetObjectPropertySet (o : value) : M (list string) :=
  gets (λ st, property_set st o).

(** One turn of the loop over the recorded names: a name in common is
    removed from [properties], another one is pushed on the list of
    inconsistent ones. *)
Definition compare_step (acc : list string * list string) (k : string)
  : list string * list string :=
  if Set_has acc.1 k then (Set_delete acc.1 k, acc.2) else (acc.1, (acc.2 ++ [k])%list).

Definition inconsistent_properties (existingProperties properties : list string) : list string :=
  let acc := foldl compare_step (properties, []) existingProperties in
  (acc.2 ++ acc.1)%list.

Definition inconsistent_message (name : string) (inconsistentProperties : list string) : string :=
  "'" +:+ name +:+ "' constructor creates inconsistent properties: "
  +:+ join ", " inconsistentProperties.

Definition VerifyObjectPropertiesConsistent (Type_ : classid) (o : value) : M unit :=
  properties ← GetObjectPropertySet o;
  existingProperties ← gets (λ st, typeProperties st !! Type_);
  match existingProperties with
  | Some existingProperties =>
      let inconsistentProperties := inconsistent_properties existingProperties properties in
      when (negb (bool_decide (length inconsistentProperties = 0)))
        (name ← getName (VFunction Type_);
         logDefendedObjectWarning (inconsistent_message name inconsistentProperties))
  | None =>
      modify (λ st, set_typeProperties (<[Type_ := properties]> (typeProperties st)) st)
  end.

Definition New (Type_ : value) (args : list value) : M value :=
  if negb (streq (typeof Type_) "function") then throw (TypeError "expected function")
  else
    match Type_ with
    | VFunction c =>
        o ← try_catch (construct c args)
              (λ e, modify (set_ctorProxyToObject []);;
                    modify (set_ctorObjectToProxy []);;
                    throw e);
        m ← gets mode;
        when (streq m "defend") (VerifyObjectPropertiesConsistent c o);;
        Defend o
    | _ => throw (TypeError "expected function")
    end.

(** *** Release *)

Definition Release (o : value) : M unit :=
  realObject ← gets (λ st, WeakMap_get (proxyToObject st) o);
  match realObject with
  | Some realObject =>
      stack ← GetCallStack;
      modify (λ st, set_releasedObjects (<[realObject := stack]> (releasedObjects st)) st)
  | None => mret tt
  end.

Definition WasReleased (o : value) : M bool :=
  realObject ← gets (λ st, WeakMap_get (proxyToObject st) o);
  match realObject with
  | None => mret false
  | Some realObject =>
      context ← gets (λ st, releasedObjects st !! realObject);
      mret (from_option truthy_string false context)
  end.

(** *** The deferred check for objects created without [New] *)

Definition missing_New_message (leftoverNames : string) : string :=
  "An object derived from DefendedBase was not created with New(). "
  +:+ "This will disable some checks. Possible affected class names: "
  +:+ leftoverNames.

Definition CheckDefendedObjectsUsedCorrectly : M unit :=
  modify (set_checkTimerId (-1)%Z);;
  objects ← gets ctorObjectToProxy;
  proxies ← gets ctorProxyToObject;
  when (bool_decide (0 < length objects) || bool_decide (0 < length proxies))
    (names ← gets (λ st, (λ r, getName_in st (VObject r)) <$> al_keys objects);
     let leftoverNames := join "," (Set_of_list names) in
     logDefendedObjectWarning (missing_New_message leftoverNames);;
     modify (set_ctorObjectToProxy []);;
     modify (set_ctorProxyToObject [])).

(** *** Client operations *)

(** What a client can do that reaches the module: property operations on
    an object it holds, the exported functions, a bare [new C(...)], and
    letting the host run the pending timer.  These are the operations that
    the handler and the exported functions see.  A client can also hand a
    wrapper to [Object.preventExtensions], [Object.setPrototypeOf] and the
    like, for which the handler has no trap and which the proxy applies to
    the instance; what is proved below about the states that a client
    reaches is proved for the operations listed here. *)
Inductive op : Type :=
  | OpGet (o : ref) (k : key)
  | OpSet (o : ref) (k : key) (v : value)
  | OpDelete (o : ref) (k : key)
  | OpDefineProperty (o : ref) (k : key) (desc : value)
  | OpConstruct (c : classid) (args : list value)
  | OpNew (Type_ : value) (args : list value)
  | OpRelease (o : value)
  | OpWasReleased (o : value)
  | OpSetMode (m : value)
  | OpSetWarningCallback (f : value)
  | OpTimer.

Definition perform (o : op) : M value :=
  match o with
  | OpGet o k => read o k
  | OpSet o k v => assign o k v;; mret v
  | OpDelete o k => b ← delete_property o k; mret (VBoolean b)
  | OpDefineProperty o k desc => define_property o k desc;; mret (VObject o)
  | OpConstruct c args => construct c args
  | OpNew Type_ args => New Type_ args
  | OpRelease o => Release o;; mret VUndefined
  | OpWasReleased o => b ← WasReleased o; mret (VBoolean b)
  | OpSetMode m => SetMode m;; mret VUndefined
  | OpSetWarningCallback f => SetWarningCallback f;; mret VUndefined
  | OpTimer =>
      id ← gets checkTimerId;
      when (negb (bool_decide (id = (-1)%Z))) CheckDefendedObjectsUsedCorrectly;;
      mret VUndefined
  end.

(** An operation carried out from a call site whose stack reads [stack]. *)
Definition step (o : op) (stack : string) : M value :=
  modify (set_callStack stack);; perform o.

(** A client run: operations one after the other, each from its own call
    site; an error thrown by one of them is caught by the client. *)
Definition run (ops : list (op * string)) (st : state) : state :=
  foldl (λ s o, (step o.1 o.2 s).2) st ops.

(** The type-compatibility rule in the words of the specification, over
    classifications: valid when either side is null-like, otherwise invalid
    when either side is absent, otherwise valid exactly for equal
    classifications. *)
Definition valid_transition (from to : classification) : bool :=
  if bool_decide (from = CNull ∨ to = CNull) then true
  else if bool_decide (from = CUndefined ∨ to = CUndefined) then false
  else bool_decide (from = to).

(** How the registries may change over time: a heap cell keeps its kind (a
    proxy its target, an ordinary object its class), a proxy registered for
    an allocated reference stays registered for the same target, shape
    records stay as they are, and released objects stay released. *)
Record evolves (st st' : state) : Prop := {
  evolves_proxy : ∀ p t, heap st !! p = Some (Proxy t) → heap st' !! p = Some (Proxy t);
  evolves_ordinary : ∀ r obj,
    heap st !! r = Some (Ordinary obj) →
    ∃ obj', heap st' !! r = Some (Ordinary obj') ∧ obj_class obj' = obj_class obj;
  evolves_proxyToObject : ∀ p r,
    is_Some (heap st !! p) → proxyToObject st !! p = Some r → proxyToObject st' !! p = Some r;
  evolves_typeProperties : ∀ c record,
    typeProperties st !! c = Some record → typeProperties st' !! c = Some record;
  evolves_releasedObjects : ∀ r,
    is_Some (releasedObjects st !! r) → is_Some (releasedObjects st' !! r);
}.






(** The state and the completion that the shape check of instance [o] of
    class [c] leaves. *)
Definition verified (c : classid) (o : value) (st : state) : state :=
  match typeProperties st !! c with
  | Some existing =>
      if bool_decide (length (inconsistent_properties existing (property_set st o)) = 0)
      then st
      else add_report (inconsistent_message (getName_in st (VFunction c))
                         (inconsistent_properties existing (property_set st o))) st
  | None => set_typeProperties (<[c := property_set st o]> (typeProperties st)) st
  end.

Definition verified_completion (c : classid) (o : value) (st : state) : completion unit :=
  match typeProperties st !! c with
  | Some existing =>
      if bool_decide (length (inconsistent_properties existing (property_set st o)) = 0)
      then Normal tt
      else reported st (inconsistent_message (getName_in st (VFunction c))
                          (inconsistent_properties existing (property_set st o))) tt
  | None => Normal tt
  end.

(** Whether an operation is a call of [Release]. *)
Definition is_release (o : op) : bool :=
  match o with
  | OpRelease _ => true
  | _ => false
  end.




(** A computation advances a preorder on states when its final state,
    however it completes, is related to the one it started from. *)
Definition advances (R : relation state) {A} (m : M A) : Prop := ∀ st, R st (m st).2.

(** A field that a computation leaves as it found it. *)
Definition unchanged {T} (f : state → T) : relation state := λ st st', f st' = f st.

(** What a constructor body does to the own properties of [this], and how
    it completes, when nothing stands in the way of its assignments. *)
Fixpoint body_props (props : list (key * value)) (body : list stmt) : list (key * value) :=
  match body with
  | [] => props
  | SAssign k v :: rest => body_props (al_set props k v) rest
  | SThrow _ :: _ => props
  end.

Fixpoint body_completion (body : list stmt) : completion unit :=
  match body with
  | [] => Normal tt
  | SAssign _ _ :: rest => body_completion rest
  | SThrow v :: _ => Throw (Thrown v)
  end.

(** The shape in which the module keeps its registries and the heap: every
    wrapper is tracked and wraps an extensible instance of a class that
    extends [DefendedBase]; the weak table holds wrappers only, no two of
    them over the same instance; the two
    session maps mirror each other and hold wrappers with their targets;
    only allocated ordinary objects are released; a shape record is a set;
    the mode is one of the valid ones; and the timer id is [-1] or one the
    host handed out. *)
Record well_formed (st : state) : Prop := {
  wf_wrapper : ∀ p t, heap st !! p = Some (Proxy t) →
    proxyToObject st !! p = Some t
    ∧ ∃ obj, heap st !! t = Some (Ordinary obj)
             ∧ extends_DefendedBase (classes (obj_class obj)) = true
             ∧ obj_extensible obj = true;
  wf_tracked : ∀ p t, proxyToObject st !! p = Some t → heap st !! p = Some (Proxy t);
  wf_distinct : ∀ p p' t,
    proxyToObject st !! p = Some t → proxyToObject st !! p' = Some t → p = p';
  wf_mirror : ∀ r p,
    al_get (ctorObjectToProxy st) r = Some p ↔ al_get (ctorProxyToObject st) p = Some r;
  wf_session : ∀ p r,
    al_get (ctorProxyToObject st) p = Some r → heap st !! p = Some (Proxy r);
  wf_released : ∀ r, is_Some (releasedObjects st !! r) →
    ∃ obj, heap st !! r = Some (Ordinary obj);
  wf_record : ∀ c record, typeProperties st !! c = Some record → NoDup record;
  wf_mode : mode st ∈ VALID_MODES;
  wf_timer : (0 ≤ timers st)%Z
             ∧ (checkTimerId st = (-1)%Z ∨ (0 < checkTimerId st ≤ timers st)%Z);
}.

(** A computation that does not look at the mode: run in a state whose mode
    was replaced, it completes the same way and leaves the same state, with
    the replaced mode. *)
Definition ignores_mode {A} (m : M A) : Prop :=
  ∀ md st, m (set_mode md st) = ((m st).1, set_mode md (m st).2).

(** The instance that the constructor of class [c] builds from [args], and
    how [new c(...args)] completes when it evaluates to [o] unless the body
    throws. *)
Definition constructed (c : classid) (args : list value) : object :=
  {| obj_class := c; obj_props := body_props [] (constructor_body (classes c) args);
     obj_extensible := true |}.

Definition construct_completion (c : classid) (args : list value) (o : value)
  : completion value :=
  match body_completion (constructor_body (classes c) args) with
  | Normal _ => Normal o
  | Throw e => Throw e
  end.

(** The references that [new c(...)] allocates in mode "defend" for a class
    that extends [DefendedBase]: the instance and its wrapper. *)
Definition fresh_instance (c : classid) (st : state) : ref :=
  let empty := Ordinary {| obj_class := c; obj_props := []; obj_extensible := true |} in
  fresh (dom (<[fresh (dom (heap st)) := empty]> (heap st))).

Definition fresh_wrapper (c : classid) (st : state) : ref :=
  let empty := Ordinary {| obj_class := c; obj_props := []; obj_extensible := true |} in
  fresh (dom (<[fresh_instance c st := empty]> (<[fresh (dom (heap st)) := empty]> (heap st)))).

(** The invariant as a preorder on states: a step that keeps it. *)
Definition keeps_well_formed : relation state := λ st st', well_formed st → well_formed st'.

(** The state in which [new c(...args)] leaves the module in mode "defend"
    when [c] extends [DefendedBase]: the instance behind its wrapper, the
    session open in both maps, the wrapper tracked, and the timer requested
    unless one was pending. *)
Definition opened (c : classid) (args : list value) (st : state) : state :=
  let empty := Ordinary {| obj_class := c; obj_props := []; obj_extensible := true |} in
  let r := fresh_instance c st in
  let p := fresh_wrapper c st in
  let pending := bool_decide (checkTimerId st = (-1)%Z) in
  {| mode := mode st; warningCallback := warningCallback st;
     ctorObjectToProxy := al_set (ctorObjectToProxy st) r p;
     ctorProxyToObject := al_set (ctorProxyToObject st) p r;
     proxyToObject := <[p := r]> (proxyToObject st);
     releasedObjects := releasedObjects st; typeProperties := typeProperties st;
     checkTimerId := if pending then (timers st + 1)%Z else checkTimerId st;
     heap := <[r := Ordinary (constructed c args)]>
               (<[p := Proxy r]> (<[r := empty]> (<[fresh (dom (heap st)) := empty]> (heap st))));
     callStack := callStack st;
     timers := if pending then (timers st + 1)%Z else timers st;
     reports := reports st |}.

(** The session of wrapper [p] over [r] closed, as [Defend] does. *)
Definition closed (p r : ref) (st : state) : state :=
  set_ctorObjectToProxy (al_delete (ctorObjectToProxy st) r)
    (set_ctorProxyToObject (al_delete (ctorProxyToObject st) p) st).

End defend.

(** ** The classes of the example program *)

(** [example.js] declares [Test], [InconsistentProperties] and
    [LeakingThis]; [Plain] does not extend [DefendedBase], and the
    constructor of [Failing] throws after its first assignment, and that of
    [Optional] leaves its property [undefined].  [Object] is the built-in
    constructor, whose prototype ends every chain. *)
Definition Object_ : classid := 0.
Definition Test : classid := 1.
Definition InconsistentProperties : classid := 2.
Definition LeakingThis : classid := 3.
Definition Plain : classid := 4.
Definition Failing : classid := 5.
Definition Optional : classid := 6.

Definition truthy (v : value) : bool :=
  match v with
  | VUndefined | VNull => false
  | VBoolean b => b
  | VNumber n | VBigInt n => negb (bool_decide (n = 0%Z))
  | VString s => negb (streq s "")
  | _ => true
  end.

(** The data members of [Object.prototype], which every object of the
    examples inherits behind the members of its class.  (Its accessor
    [__proto__] yields the prototype object, which is not among the values
    of the model, and is left out.) *)
Definition Object_prototype : list (key * value) :=
  [(KString "constructor", VFunction Object_);
   (KString "hasOwnProperty", VFunction 301);
   (KString "isPrototypeOf", VFunction 302);
   (KString "propertyIsEnumerable", VFunction 303);
   (KString "toLocaleString", VFunction 304);
   (KString "toString", VFunction 305);
   (KString "valueOf", VFunction 306)].

Definition example_classes (c : classid) : class :=
  if decide (c = Object_) then
    {| class_name := "Object"; extends_DefendedBase := false;
       prototype := Object_prototype;
       constructor_body := λ _, [] |}
  else if decide (c = Test) then
    {| class_name := "Test"; extends_DefendedBase := true;
       prototype := [(KString "constructor", VFunction Test);
                     (KString "SetString", VFunction 101);
                     (KString "GetString", VFunction 102)] ++ Object_prototype;
       constructor_body := λ _, [SAssign (KString "_str") (VString "foo")] |}
  else if decide (c = InconsistentProperties) then
    {| class_name := "InconsistentProperties"; extends_DefendedBase := true;
       prototype := (KString "constructor", VFunction InconsistentProperties) :: Object_prototype;
       constructor_body := λ args,
         [SAssign (KString "_commonProperty") (VNumber 1);
          if truthy (default VUndefined (head args))
          then SAssign (KString "_withFlag") (VNumber 2)
          else SAssign (KString "_withoutFlag") (VNumber 3)] |}
  else if decide (c = LeakingThis) then
    {| class_name := "LeakingThis"; extends_DefendedBase := true;
       prototype := (KString "constructor", VFunction LeakingThis) :: Object_prototype;
       constructor_body := λ _, [] |}
  else if decide (c = Plain) then
    {| class_name := "Plain"; extends_DefendedBase := false;
       prototype := (KString "constructor", VFunction Plain) :: Object_prototype;
       constructor_body := λ args,
         SAssign (KString "a") (VNumber 1)
         :: (if truthy (default VUndefined (head args))
             then [SAssign (KString "b") (VNumber 2)] else []) |}
  else if decide (c = Failing) then
    {| class_name := "Failing"; extends_DefendedBase := true;
       prototype := (KString "constructor", VFunction Failing) :: Object_prototype;
       constructor_body := λ _,
         [SAssign (KString "a") (VNumber 1); SThrow (VString "boom")] |}
  else if decide (c = Optional) then
    {| class_name := "Optional"; extends_DefendedBase := true;
       prototype := (KString "constructor", VFunction Optional) :: Object_prototype;
       constructor_body := λ _, [SAssign (KString "x") VUndefined] |}
  else
    {| class_name := ""; extends_DefendedBase := false;
       prototype := (KString "constructor", VFunction c) :: Object_prototype;
       constructor_body := λ _, [] |}.

(** The text of a number: an integer below [10^21] in full, a larger one
    in exponent form, which is how JavaScript prints an integer that it
    holds exactly and that has at most fifteen significant digits.  The
    examples use no other number. *)
Fixpoint strip_zeros (digits : string) : string :=
  match digits with
  | EmptyString => EmptyString
  | String a rest =>
      let rest' := strip_zeros rest in
      if bool_decide (rest' = EmptyString) && bool_decide (String a EmptyString = "0")
      then EmptyString else String a rest'
  end.

Definition Number_toString (n : Z) : option string :=
  let digits := pretty (Z.abs n) in
  let significant := strip_zeros digits in
  let sign := if bool_decide (n < 0)%Z then "-" else "" in
  if bool_decide (Z.abs n < 10 ^ 21)%Z then
    if bool_decide (Z.abs n ≤ 2 ^ 53)%Z || bool_decide (String.length significant ≤ 15)%nat
    then Some (pretty n) else None
  else if bool_decide (String.length significant ≤ 15)%nat then
    match significant with
    | EmptyString => None
    | String a EmptyString =>
        Some (sign +:+ String a "e+" +:+ pretty (String.length digits - 1)%nat)
    | String a rest =>
        Some (sign +:+ String a "." +:+ rest +:+ "e+" +:+ pretty (String.length digits - 1)%nat)
    end
  else None.

(** String conversion as the host does it for the values of the examples:
    the objects and functions of the examples have the built-in [toString],
    and their arrays are empty. *)
Definition example_to_string (v : value) : option string :=
  match v with
  | VNumber n => Number_toString n
  | VBigInt n => Some (pretty n)
  | VObject _ => Some "[object Object]"
  | VArray _ => Some ""
  | VFunction _ => Some "function () { [native code] }"
  | _ => None
  end.

(** A warning callback of the client that throws its message, and one that
    keeps it and returns. *)
Definition throwing_callback : value := VFunction 200.

Definition example_callback_throws (f : value) (msg : string) : option exn :=
  if decide (f = throwing_callback) then Some (Thrown (VString msg)) else None.

Definition example_host : Host :=
  {| classes := example_classes; host_to_string := example_to_string;
     callback_throws := example_callback_throws |}.

Abbreviation example_step := (step (host := example_host)).
Abbreviation example_run := (run (host := example_host)).

(** A [Test] instance created with a bare [new]: proxy 2 over object 1, with
    its construction session still open. *)
Definition under_construction : state :=
  example_run [(OpConstruct Test [], "at main")] initial_state.

(** A [Test] instance created with [New]: proxy 2 over object 1, finalized. *)
Definition finalized : state :=
  example_run [(OpNew (VFunction Test) [], "at main")] initial_state.

(** The same instance after [Release]. *)
Definition released : state :=
  example_run [(OpRelease (VObject 2), "at release")] finalized.


(** The state after [New(InconsistentProperties, true)] and a bare
    [new InconsistentProperties(false)], whose instance is the proxy 5. *)
Definition two_shapes : state :=
  example_run [(OpNew (VFunction InconsistentProperties) [VBoolean true], "at first");
               (OpConstruct InconsistentProperties [VBoolean false], "at second")]
    initial_state.

(** [Plain] does not extend [DefendedBase]; its first instance, created with
    a truthy flag, has the properties [a] and [b]. *)
Definition plain_recorded : state :=
  example_run [(OpNew (VFunction Plain) [VBoolean true], "at first")] initial_state.


(** The freshly loaded module after [SetMode("off")] and after
    [SetMode("seal")]. *)
Definition off_mode : state :=
  example_run [(OpSetMode (VString "off"), "at main")] initial_state.

Definition seal_mode : state :=
  example_run [(OpSetMode (VString "seal"), "at main")] initial_state.

(** A class whose constructor assigns the same two properties in an order
    that depends on its argument, beside the classes above. *)
Definition Reordered : classid := 7.

Definition reorder_classes (c : classid) : class :=
  if decide (c = Reordered) then
    {| class_name := "Reordered"; extends_DefendedBase := true;
       prototype := (KString "constructor", VFunction Reordered) :: Object_prototype;
       constructor_body := λ args,
         if truthy (default VUndefined (head args))
         then [SAssign (KString "a") (VNumber 1); SAssign (KString "b") (VNumber 2)]
         else [SAssign (KString "b") (VNumber 2); SAssign (KString "a") (VNumber 1)] |}
  else example_classes c.

Definition reorder_host : Host :=
  {| classes := reorder_classes; host_to_string := example_to_string;
     callback_throws := example_callback_throws |}.

(** The state after [New(Reordered, true)] and a bare [new Reordered(false)],
    whose instance is the proxy 5. *)
Definition reordered : state :=
  run (host := reorder_host)
    [(OpNew (VFunction Reordered) [VBoolean true], "at first");
     (OpConstruct Reordered [VBoolean false], "at second")]
    initial_state.


Definition throwing_recorded : state :=
  example_run [(OpNew (VFunction InconsistentProperties) [VBoolean true], "at first");
               (OpSetWarningCallback throwing_callback, "at main")] initial_state.



(** * Properties *)

Section properties.
Context {host : Host}.

(** ** Classification of values *)

Lemma getType_classify (o : value) : getType o = classification_name (classify o).
Proof. by destruct o. Qed.

Lemma classification_name_inj (c d : classification) :
  classification_name c = classification_name d → c = d.
Proof. by destruct c, d. Qed.

Lemma getType_eq_iff (a b : value) : getType a = getType b ↔ classify a = classify b.
Proof.
  rewrite !getType_classify. split.
  - apply classification_name_inj.
  - by intros ->.
Qed.

Lemma streq_classification (c d : classification) :
  streq (classification_name c) (classification_name d) = bool_decide (c = d).
Proof.
  unfold streq. apply bool_decide_ext. split.
  - apply classification_name_inj.
  - by intros ->.
Qed.

Lemma isValidTypeChange_classify (from to : value) :
  isValidTypeChange from to = valid_transition (classify from) (classify to).
Proof.
  unfold isValidTypeChange, valid_transition.
  rewrite !getType_classify.
  change "null" with (classification_name CNull).
  change "undefined" with (classification_name CUndefined).
  rewrite !streq_classification.
  by destruct (classify from), (classify to).
Qed.

(** C4.  [isValidTypeChange] follows the rule of the specification on the
    classification that [getType] computes: true if either side is null,
    otherwise false if either side is undefined, otherwise true exactly when
    both sides classify alike; [getType] names the classification, with null
    and arrays told apart from plain objects; null to undefined and back are
    valid. *)
Theorem isValidTypeChange_rule (from to : value) :
  isValidTypeChange from to =
    (if bool_decide (classify from = CNull ∨ classify to = CNull) then true
     else if bool_decide (classify from = CUndefined ∨ classify to = CUndefined) then false
     else bool_decide (classify from = classify to))
  ∧ getType from = classification_name (classify from)
  ∧ getType to = classification_name (classify to)
  ∧ (getType from = getType to ↔ classify from = classify to)
  ∧ getType VNull = "null" ∧ getType (VArray 0) = "array" ∧ getType (VObject 0) = "object"
  ∧ isValidTypeChange VNull VUndefined = true
  ∧ isValidTypeChange VUndefined VNull = true.
Proof.
  split; [apply isValidTypeChange_classify|].
  split; [apply getType_classify|].
  split; [apply getType_classify|].
  split; [apply getType_eq_iff|].
  done.
Qed.

(** ** The handler, case by case *)

Ltac munfold :=
  unfold mbind, M_bind, mret, M_ret, gets, modify, throw, when, try_catch in *.

Lemma sink_throws_ext (st st' : state) (msg : string) :
  warningCallback st' = warningCallback st → sink_throws st' msg = sink_throws st msg.
Proof. intros H. unfold sink_throws. by rewrite H. Qed.

Lemma sink_returns_ext (st st' : state) :
  warningCallback st' = warningCallback st → sink_returns st → sink_returns st'.
Proof. intros H Hs msg. by rewrite (sink_throws_ext st st'). Qed.

Lemma reported_returns {A} (st : state) (msg : string) (a : A) :
  sink_returns st → reported st msg a = Normal a.
Proof. intros H. unfold reported. by rewrite H. Qed.

Lemma logDefendedObjectWarning_eq (msg : string) (st : state) :
  logDefendedObjectWarning msg st = (reported st msg tt, add_report msg st).
Proof.
  unfold logDefendedObjectWarning, reported, GetCallStack. munfold. simpl.
  change (sink_throws (set_reports _ st) msg) with (sink_throws st msg).
  by destruct (sink_throws st msg).
Qed.

#[local] Arguments logDefendedObjectWarning : simpl never.





(** (4) Otherwise the assignment is performed, whatever the key. *)
Lemma defendHandler_set_performed (st : state) (target : ref) (k : key) (v : value) :
  releasedObjects st !! target = None →
  has_property_in st target k = true ∨ al_has (ctorObjectToProxy st) target = true →
  isValidTypeChange (get_property_in st target k) v = true
    ∨ al_has (ctorObjectToProxy st) target = true →
  defendHandler_set target k v st = (put_property target k v ≫= λ _, mret true) st.
Proof.
  intros H1 H2 H3.
  unfold defendHandler_set, has_property, get_property, getName.
  munfold. simpl. rewrite H1. simpl.
  destruct H2 as [-> | H2], H3 as [H3 | H3]; simpl; rewrite ?H3, ?H2; simpl;
    try done; by destruct (has_property_in st target k), (isValidTypeChange _ _).
Qed.

(** An assignment to a property that exists, or to an extensible object,
    goes through. *)
Lemma put_property_ok (st : state) (r : ref) (k : key) (v : value) (obj : object) :
  heap st !! r = Some (Ordinary obj) →
  al_has (obj_props obj) k || obj_extensible obj = true →
  put_property r k v st
  = (Normal tt,
     set_heap (<[r := Ordinary {| obj_class := obj_class obj;
                                  obj_props := al_set (obj_props obj) k v;
                                  obj_extensible := obj_extensible obj |}]> (heap st)) st).
Proof.
  intros H1 H2. unfold put_property. munfold. simpl. by rewrite H1, H2.
Qed.








Lemma defendHandler_deleteProperty_eq (st : state) (target : ref) (k : key) :
  defendHandler_deleteProperty target k st
  = (Throw (match key_to_string k with
            | Some s => ReferenceError (delete_message s (getName_in st (VObject target)))
            | None => TypeError "Cannot convert a Symbol value to a string"
            end), st).
Proof. by destruct k. Qed.

Lemma defendHandler_defineProperty_eq (st : state) (target : ref) (k : key) (desc : value) :
  defendHandler_defineProperty target k desc st
  = (Throw (match key_to_string k with
            | Some s => ReferenceError (define_message s (getName_in st (VObject target)))
            | None => TypeError "Cannot convert a Symbol value to a string"
            end), st).
Proof. by destruct k. Qed.

(** ** What computations preserve *)

Section advances.
Context (R : relation state) `{!PreOrder R}.

Lemma advances_ret {A} (a : A) : advances R (mret a).
Proof. intros st. simpl. reflexivity. Qed.

Lemma advances_throw {A} (e : exn) : advances R (throw e : M A).
Proof. intros st. simpl. reflexivity. Qed.

Lemma advances_gets {A} (f : state → A) : advances R (gets f).
Proof. intros st. simpl. reflexivity. Qed.

Lemma advances_modify (f : state → state) : (∀ st, R st (f st)) → advances R (modify f).
Proof. intros H st. apply H. Qed.

Lemma advances_bind {A B} (m : M A) (f : A → M B) :
  advances R m → (∀ a, advances R (f a)) → advances R (m ≫= f).
Proof.
  intros Hm Hf st. unfold mbind, M_bind. specialize (Hm st).
  destruct (m st) as [[a|e] st']; simpl in *; [|done].
  etrans; [exact Hm|apply Hf].
Qed.

Lemma advances_when (c : bool) (m : M unit) : advances R m → advances R (when c m).
Proof. intros H. destruct c; [exact H|apply advances_ret]. Qed.

Lemma advances_try_catch {A} (m : M A) (h : exn → M A) :
  advances R m → (∀ e, advances R (h e)) → advances R (try_catch m h).
Proof.
  intros Hm Hh st. unfold try_catch. specialize (Hm st).
  destruct (m st) as [[a|e] st']; simpl in *; [done|].
  etrans; [exact Hm|apply Hh].
Qed.
End advances.

#[local] Instance unchanged_preorder {T} (f : state → T) : PreOrder (unchanged f).
Proof.
  split.
  - by intros st.
  - intros a b c Hab Hbc. unfold unchanged in *. congruence.
Qed.

Create HintDb adv discriminated.

Ltac adv_step :=
  match goal with
  | |- PreOrder _ => apply _
  | |- ∀ _, _ => intro
  | |- advances _ (mret _) => apply advances_ret
  | |- advances _ (throw _) => apply advances_throw
  | |- advances _ (gets _) => apply advances_gets
  | |- advances _ (when _ _) => apply advances_when
  | |- advances _ (mbind _ _) => apply advances_bind
  | |- advances _ (try_catch _ _) => apply advances_try_catch
  | |- advances _ (modify _) => apply advances_modify
  | |- advances _ (match ?x with _ => _ end) => destruct x
  | |- _ => solve [eauto 2 with adv]
  end.

Ltac adv := repeat adv_step.


(** *** Computations built from the state-changing leaves

    Everything the module does to its state goes through a few leaves: an
    assignment to or a deletion from an ordinary object, an allocation, the
    registration done by the base constructor, a change of extensibility,
    the shape check, a release, and plain updates of the sink, the session
    maps, the timer, the mode and the call stack.  A preorder advanced by
    the leaves is advanced by every function built from them. *)
Section compositional.
Context (R : relation state) `{!PreOrder R}.
Hypothesis R_put : ∀ r k v, advances R (put_property r k v).
Hypothesis R_delete : ∀ o k, advances R (delete_property o k).
Hypothesis R_alloc : ∀ c, advances R (alloc c).
Hypothesis R_base : ∀ c, advances R (DefendedBase_constructor c).
Hypothesis R_extensible : ∀ r b st, R st (set_extensible r b st).
Hypothesis R_verify : ∀ c o, advances R (VerifyObjectPropertiesConsistent c o).
Hypothesis R_reports : ∀ l st, R st (set_reports l st).
Hypothesis R_ctorObjectToProxy : ∀ m st, R st (set_ctorObjectToProxy m st).
Hypothesis R_ctorProxyToObject : ∀ m st, R st (set_ctorProxyToObject m st).
Hypothesis R_checkTimerId : ∀ id st, R st (set_checkTimerId id st).
Hypothesis R_mode : ∀ m st, R st (set_mode m st).
Hypothesis R_warningCallback : ∀ f st, R st (set_warningCallback f st).
Hypothesis R_callStack : ∀ s st, R st (set_callStack s st).

#[local] Hint Resolve R_put R_delete R_alloc R_base R_extensible R_verify R_reports
  R_ctorObjectToProxy R_ctorProxyToObject R_checkTimerId R_mode R_warningCallback
  R_callStack : adv.

Lemma logDefendedObjectWarning_advances (msg : string) :
  advances R (logDefendedObjectWarning msg).
Proof using R_reports PreOrder0. unfold logDefendedObjectWarning, GetCallStack. adv. Qed.
#[local] Hint Resolve logDefendedObjectWarning_advances : adv.

Lemma defendHandler_get_advances (target : ref) (k : key) :
  advances R (defendHandler_get target k).
Proof using R_reports PreOrder0.
  unfold defendHandler_get, has_property, get_property, getName, template_key. adv.
Qed.

#[local] Hint Resolve defendHandler_get_advances : adv.

Lemma template_value_advances (v : value) : advances R (template_value v).
Proof using R_reports PreOrder0. unfold template_value. adv. Qed.
#[local] Hint Resolve template_value_advances : adv.

Lemma defendHandler_set_advances (target : ref) (k : key) (v : value) :
  advances R (defendHandler_set target k v).
Proof using R_reports R_put PreOrder0.
  unfold defendHandler_set, has_property, get_property, getName, template_key.
  adv.
Qed.

Lemma defendHandler_defineProperty_advances (target : ref) (k : key) (desc : value) :
  advances R (defendHandler_defineProperty target k desc).
Proof using PreOrder0. unfold defendHandler_defineProperty, getName, template_key. adv. Qed.
#[local] Hint Resolve defendHandler_set_advances
  defendHandler_defineProperty_advances : adv.

Lemma read_advances (o : ref) (k : key) : advances R (read o k).
Proof using R_reports PreOrder0. unfold read, get_property. adv. Qed.

Lemma assign_advances (o : ref) (k : key) (v : value) : advances R (assign o k v).
Proof using R_reports R_put PreOrder0. unfold assign. adv. Qed.
#[local] Hint Resolve read_advances assign_advances : adv.

Lemma define_property_advances (o : ref) (k : key) (desc : value) :
  advances R (define_property o k desc).
Proof using R_reports R_put PreOrder0. unfold define_property. adv. Qed.

Lemma run_body_advances (this : ref) (body : list stmt) : advances R (run_body this body).
Proof using R_reports R_put PreOrder0.
  induction body as [|[k v|v] rest IH]; simpl; adv.
Qed.
#[local] Hint Resolve define_property_advances run_body_advances : adv.

Lemma construct_advances (c : classid) (args : list value) : advances R (construct c args).
Proof using R_reports R_put R_alloc R_base PreOrder0.
  unfold construct, Object_create. adv.
Qed.

Lemma Object_seal_advances (o : value) : advances R (Object_seal o).
Proof using R_extensible PreOrder0. unfold Object_seal. adv. Qed.
#[local] Hint Resolve construct_advances Object_seal_advances : adv.

Lemma Defend_advances (o : value) : advances R (Defend o).
Proof using R_extensible R_ctorObjectToProxy R_ctorProxyToObject PreOrder0.
  unfold Defend. adv.
Qed.
#[local] Hint Resolve Defend_advances : adv.

Lemma New_advances (Type_ : value) (args : list value) : advances R (New Type_ args).
Proof using R_reports R_put R_alloc R_base R_extensible R_verify R_ctorObjectToProxy
  R_ctorProxyToObject PreOrder0.
  unfold New. adv.
Qed.

Lemma CheckDefendedObjectsUsedCorrectly_advances :
  advances R CheckDefendedObjectsUsedCorrectly.
Proof using R_reports R_ctorObjectToProxy R_ctorProxyToObject R_checkTimerId PreOrder0.
  unfold CheckDefendedObjectsUsedCorrectly. adv.
Qed.
#[local] Hint Resolve New_advances CheckDefendedObjectsUsedCorrectly_advances : adv.

Lemma perform_advances (o : op) :
  (∀ v, o = OpRelease v → advances R (Release v)) → advances R (perform o).
Proof using All.
  intros HR. destruct o; simpl; unfold SetMode, SetWarningCallback, WasReleased; adv.
Qed.

Lemma step_advances (o : op) (stack : string) :
  (∀ v, o = OpRelease v → advances R (Release v)) → advances R (step o stack).
Proof using All.
  intros HR. unfold step. apply advances_bind; [apply _|adv|intros _; by apply perform_advances].
Qed.

Lemma run_advances (ops : list (op * string)) (st : state) :
  (∀ v, advances R (Release v)) → R st (run ops st).
Proof using All.
  intros HR. revert st. induction ops as [|[o stack] ops IH]; intros st; simpl.
  - reflexivity.
  - etrans; [|apply IH]. apply step_advances. intros; apply HR.
Qed.
End compositional.

(** *** Fields that whole operations leave alone *)

Section unchanged_field.
Context {T : Type} (f : state → T).
Hypothesis f_heap : ∀ h st, unchanged f st (set_heap h st).
Hypothesis f_reports : ∀ l st, unchanged f st (set_reports l st).
Hypothesis f_ctorObjectToProxy : ∀ m st, unchanged f st (set_ctorObjectToProxy m st).
Hypothesis f_ctorProxyToObject : ∀ m st, unchanged f st (set_ctorProxyToObject m st).
Hypothesis f_proxyToObject : ∀ m st, unchanged f st (set_proxyToObject m st).
Hypothesis f_checkTimerId : ∀ id st, unchanged f st (set_checkTimerId id st).
Hypothesis f_timers : ∀ n st, unchanged f st (set_timers n st).

#[local] Hint Resolve f_heap f_reports f_ctorObjectToProxy f_ctorProxyToObject
  f_proxyToObject f_checkTimerId f_timers : adv.

Lemma put_property_unchanged (r : ref) (k : key) (v : value) :
  advances (unchanged f) (put_property r k v).
Proof using f_heap. unfold put_property. adv. Qed.

Lemma delete_property_unchanged (o : ref) (k : key) :
  advances (unchanged f) (delete_property o k).
Proof using f_heap.
  unfold delete_property, defendHandler_deleteProperty, getName, template_key. adv.
Qed.

Lemma alloc_unchanged (c : cell) : advances (unchanged f) (alloc c).
Proof using f_heap. unfold alloc. adv. Qed.
#[local] Hint Resolve alloc_unchanged : adv.

Lemma DefendedBase_constructor_unchanged (c : classid) :
  advances (unchanged f) (DefendedBase_constructor c).
Proof using All.
  unfold DefendedBase_constructor, Object_create, new_Proxy, setTimeout. adv.
Qed.

Lemma set_extensible_unchanged (r : ref) (b : bool) (st : state) :
  unchanged f st (set_extensible r b st).
Proof using f_heap.
  unfold set_extensible. destruct (heap st !! r) as [[obj|t]|]; [apply f_heap|done..].
Qed.

Lemma construct_unchanged (c : classid) (args : list value) :
  advances (unchanged f) (construct c args).
Proof using All.
  apply construct_advances; first apply _;
    auto using put_property_unchanged, alloc_unchanged, DefendedBase_constructor_unchanged.
Qed.

Lemma Defend_unchanged (o : value) : advances (unchanged f) (Defend o).
Proof using f_heap f_ctorObjectToProxy f_ctorProxyToObject.
  apply Defend_advances; first apply _; auto using set_extensible_unchanged.
Qed.

Hypothesis f_typeProperties : ∀ m st, unchanged f st (set_typeProperties m st).
Hypothesis f_mode : ∀ m st, unchanged f st (set_mode m st).
Hypothesis f_warningCallback : ∀ g st, unchanged f st (set_warningCallback g st).
Hypothesis f_callStack : ∀ s st, unchanged f st (set_callStack s st).

Lemma VerifyObjectPropertiesConsistent_unchanged (c : classid) (o : value) :
  advances (unchanged f) (VerifyObjectPropertiesConsistent c o).
Proof using f_reports f_typeProperties.
  unfold VerifyObjectPropertiesConsistent, GetObjectPropertySet, getName,
    logDefendedObjectWarning, GetCallStack.
  adv.
Qed.

Lemma step_unchanged (o : op) (stack : string) :
  (∀ v, o ≠ OpRelease v) → advances (unchanged f) (step o stack).
Proof using All.
  intros Ho. apply step_advances; first apply _;
    auto using put_property_unchanged, delete_property_unchanged, alloc_unchanged,
      DefendedBase_constructor_unchanged, set_extensible_unchanged,
      VerifyObjectPropertiesConsistent_unchanged.
  intros v ->. by destruct (Ho v).
Qed.
End unchanged_field.

Lemma construct_typeProperties (c : classid) (args : list value) (st : state) :
  typeProperties (construct c args st).2 = typeProperties st.
Proof. by apply (construct_unchanged typeProperties). Qed.

Lemma construct_mode (c : classid) (args : list value) (st : state) :
  mode (construct c args st).2 = mode st.
Proof. by apply (construct_unchanged mode). Qed.

Lemma Defend_typeProperties (o : value) (st : state) :
  typeProperties (Defend o st).2 = typeProperties st.
Proof. by apply (Defend_unchanged typeProperties). Qed.

Lemma Defend_reports (o : value) (st : state) : reports (Defend o st).2 = reports st.
Proof. by apply (Defend_unchanged reports). Qed.

Lemma step_releasedObjects (o : op) (stack : string) (st : state) :
  (∀ v, o ≠ OpRelease v) → releasedObjects (step o stack st).2 = releasedObjects st.
Proof. intros Ho. by apply (step_unchanged releasedObjects). Qed.

(** *** The registries only grow *)

#[local] Instance evolves_preorder : PreOrder evolves.
Proof.
  split.
  - intros st. split; eauto.
  - intros a b c [P1 O1 M1 T1 L1] [P2 O2 M2 T2 L2]. split.
    + eauto.
    + intros r obj H. destruct (O1 _ _ H) as (obj1 & H1 & E1).
      destruct (O2 _ _ H1) as (obj2 & H2 & E2). exists obj2. split; [done|congruence].
    + intros p r Hp H. apply M2; [|by eapply M1].
      destruct Hp as [[obj|t] Hc].
      * destruct (O1 _ _ Hc) as (obj1 & H1 & _). by rewrite H1.
      * by rewrite (P1 _ _ Hc).
    + eauto.
    + eauto.
Qed.

(** Updates that leave the heap and the three registries alone. *)
Lemma evolves_same (st st' : state) :
  heap st' = heap st → proxyToObject st' = proxyToObject st →
  typeProperties st' = typeProperties st → releasedObjects st' = releasedObjects st →
  evolves st st'.
Proof.
  intros H1 H2 H3 H4. split; rewrite ?H1, ?H2, ?H3, ?H4; eauto.
Qed.

Lemma evolves_update_object (st : state) (r : ref) (obj obj' : object) :
  heap st !! r = Some (Ordinary obj) → obj_class obj' = obj_class obj →
  evolves st (set_heap (<[r := Ordinary obj']> (heap st)) st).
Proof.
  intros H E. split; simpl; eauto.
  - intros p t Hp. rewrite lookup_insert_ne; [done|congruence].
  - intros q o Hq. destruct (decide (r = q)) as [->|Hne].
    + rewrite lookup_insert_eq. exists obj'. split; [done|congruence].
    + rewrite lookup_insert_ne by done. eauto.
Qed.

Lemma evolves_allocate (st : state) (r : ref) (c : cell) :
  heap st !! r = None → evolves st (set_heap (<[r := c]> (heap st)) st).
Proof.
  intros H. split; simpl; eauto.
  - intros p t Hp. rewrite lookup_insert_ne; [done|congruence].
  - intros q o Hq. rewrite lookup_insert_ne; [eauto|congruence].
Qed.

Lemma fresh_heap_None (st : state) : heap st !! fresh (dom (heap st)) = None.
Proof. apply not_elem_of_dom, is_fresh. Qed.

Lemma put_property_evolves (r : ref) (k : key) (v : value) :
  advances evolves (put_property r k v).
Proof.
  intros st. unfold put_property. munfold. simpl.
  destruct (heap st !! r) as [[obj|t]|] eqn:E; simpl; try reflexivity.
  destruct (al_has (obj_props obj) k || obj_extensible obj); simpl; [|reflexivity].
  by eapply evolves_update_object.
Qed.

Lemma delete_property_evolves (o : ref) (k : key) : advances evolves (delete_property o k).
Proof.
  intros st. unfold delete_property. munfold. simpl.
  destruct (heap st !! o) as [[obj|t]|] eqn:E; simpl; try reflexivity.
  - destruct (obj_extensible obj || negb (al_has (obj_props obj) k)); simpl; [|reflexivity].
    by eapply evolves_update_object.
  - rewrite defendHandler_deleteProperty_eq. simpl. reflexivity.
Qed.

Lemma alloc_evolves (c : cell) : advances evolves (alloc c).
Proof. intros st. unfold alloc. munfold. simpl. apply evolves_allocate, fresh_heap_None. Qed.

Lemma set_extensible_evolves (r : ref) (b : bool) (st : state) :
  evolves st (set_extensible r b st).
Proof.
  unfold set_extensible. destruct (heap st !! r) as [[obj|t]|] eqn:E; try reflexivity.
  by eapply evolves_update_object.
Qed.

Lemma VerifyObjectPropertiesConsistent_evolves (c : classid) (o : value) :
  advances evolves (VerifyObjectPropertiesConsistent c o).
Proof.
  intros st. unfold VerifyObjectPropertiesConsistent, GetObjectPropertySet. munfold. simpl.
  destruct (typeProperties st !! c) as [existing|] eqn:E; simpl.
  - destruct (negb _); simpl; [|reflexivity].
    rewrite logDefendedObjectWarning_eq.
    destruct (reported _ _ _); by apply evolves_same.
  - split; simpl; eauto.
    intros c' record H. rewrite lookup_insert_ne; [done|congruence].
Qed.

Lemma DefendedBase_constructor_evolves (c : classid) :
  advances evolves (DefendedBase_constructor c).
Proof.
  intros st. unfold DefendedBase_constructor, Object_create, new_Proxy, alloc, setTimeout.
  munfold. simpl. destruct (negb (streq (mode st) "defend")); simpl; [reflexivity|].
  set (r := fresh (dom (heap st))).
  set (h1 := <[r := _]> (heap st)).
  set (p := fresh (dom h1)).
  assert (Hr : heap st !! r = None) by apply fresh_heap_None.
  assert (Hp : h1 !! p = None) by apply not_elem_of_dom, is_fresh.
  assert (Hq : ∀ q, is_Some (heap st !! q) → q ≠ r ∧ q ≠ p).
  { intros q [x Hx]. split; intros ->; [congruence|].
    subst h1. rewrite lookup_insert_ne in Hp; congruence. }
  assert (evolves st
    {| mode := mode st; warningCallback := warningCallback st;
       ctorObjectToProxy := al_set (ctorObjectToProxy st) r p;
       ctorProxyToObject := al_set (ctorProxyToObject st) p r;
       proxyToObject := <[p := r]> (proxyToObject st);
       releasedObjects := releasedObjects st; typeProperties := typeProperties st;
       checkTimerId := checkTimerId st; heap := <[p := Proxy r]> h1;
       callStack := callStack st; timers := timers st; reports := reports st |}) as Hev.
  { split; simpl; eauto.
    - intros q t H. destruct (Hq q) as [? ?]; [by eexists|].
      subst h1. by rewrite !lookup_insert_ne.
    - intros q obj H. destruct (Hq q) as [? ?]; [by eexists|].
      subst h1. rewrite !lookup_insert_ne by done. eauto.
    - intros q t H H'. destruct (Hq q) as [? ?]; [done|].
      by rewrite lookup_insert_ne. }
  destruct (bool_decide (checkTimerId st = (-1)%Z)); simpl.
  - etrans; [exact Hev|]. by apply evolves_same.
  - exact Hev.
Qed.

Lemma Release_evolves (o : value) : advances evolves (Release o).
Proof.
  intros st. unfold Release, GetCallStack. munfold. simpl.
  destruct (WeakMap_get (proxyToObject st) o) as [r|]; simpl; [|reflexivity].
  split; simpl; eauto.
  intros q [x Hx]. destruct (decide (q = r)) as [->|].
  - rewrite lookup_insert_eq. by eexists.
  - rewrite lookup_insert_ne by done. by eexists.
Qed.

(** Whatever the client does, the registries evolve. *)
Lemma run_evolves (ops : list (op * string)) (st : state) : evolves st (run ops st).
Proof.
  apply run_advances; first apply _;
    auto using put_property_evolves, delete_property_evolves, alloc_evolves,
      DefendedBase_constructor_evolves, set_extensible_evolves,
      VerifyObjectPropertiesConsistent_evolves, Release_evolves;
    intros; by apply evolves_same.
Qed.

Lemma step_evolves (o : op) (stack : string) (st : state) : evolves st (step o stack st).2.
Proof. apply (run_evolves [(o, stack)]). Qed.

(** ** Deletion and structural definition *)

(** C8.  On an instrumented instance (a proxy with the defend handler),
    deleting a key and defining a key always throw, whatever the state of
    the construction sessions, and leave the whole state, hence the
    instance's properties, as it was; for a string key the error is the
    handler's ReferenceError. *)
Theorem delete_define_rejected (st : state) (p target : ref) (k : key) (desc : value) :
  heap st !! p = Some (Proxy target) →
  (∃ e, delete_property p k st = (Throw e, st))
  ∧ (∃ e, define_property p k desc st = (Throw e, st))
  ∧ (∀ s, k = KString s →
       delete_property p k st
       = (Throw (ReferenceError (delete_message s (getName_in st (VObject target)))), st)
       ∧ define_property p k desc st
         = (Throw (ReferenceError (define_message s (getName_in st (VObject target)))), st)).
Proof.
  intros Hp.
  assert (Hdel : delete_property p k st = defendHandler_deleteProperty target k st).
  { unfold delete_property. munfold. simpl. by rewrite Hp. }
  assert (Hdef : define_property p k desc st = defendHandler_defineProperty target k desc st).
  { unfold define_property. munfold. simpl. by rewrite Hp. }
  rewrite Hdel, Hdef, defendHandler_deleteProperty_eq, defendHandler_defineProperty_eq.
  split; [by eexists|]. split; [by eexists|].
  by intros s ->.
Qed.

(** ** The release record over time *)

Lemma Release_eq (o : value) (st : state) :
  Release o st
  = (Normal tt,
     match WeakMap_get (proxyToObject st) o with
     | Some realObject => set_releasedObjects (<[realObject := callStack st]> (releasedObjects st)) st
     | None => st
     end).
Proof. unfold Release, GetCallStack. munfold. simpl. by destruct (WeakMap_get _ o). Qed.

Lemma step_Release_releasedObjects (o : value) (stack : string) (st : state) :
  releasedObjects (step (OpRelease o) stack st).2
  = match WeakMap_get (proxyToObject st) o with
    | Some realObject => <[realObject := stack]> (releasedObjects st)
    | None => releasedObjects st
    end.
Proof.
  unfold step, perform. munfold. simpl. rewrite Release_eq. simpl.
  by destruct (WeakMap_get _ o).
Qed.

(** One operation leaves a stored release context alone, unless it is a
    [Release] of the same object, which stores its own call stack. *)
Lemma step_released_context (o : op) (stack : string) (st : state) (r : ref) (context : string) :
  releasedObjects st !! r = Some context →
  releasedObjects (step o stack st).2 !! r = Some context
  ∨ (∃ v, o = OpRelease v ∧ WeakMap_get (proxyToObject st) v = Some r
          ∧ releasedObjects (step o stack st).2 !! r = Some stack).
Proof.
  intros H.
  destruct o as [| | | | | |v| | | |];
    try (left; rewrite step_releasedObjects; [done|by intros ?]).
  rewrite step_Release_releasedObjects.
  destruct (WeakMap_get (proxyToObject st) v) as [r'|] eqn:E; [|by left].
  destruct (decide (r' = r)) as [->|Hne].
  - right. exists v. by rewrite lookup_insert_eq.
  - left. by rewrite lookup_insert_ne.
Qed.

(** Without a further [Release], the record is exactly what it was. *)
Lemma run_releasedObjects (ops : list (op * string)) (st : state) :
  Forall (λ o, is_release o.1 = false) ops →
  releasedObjects (run ops st) = releasedObjects st.
Proof.
  intros H. revert st. induction H as [|[o stack] ops Ho _ IH]; intros st; simpl; [done|].
  rewrite IH. apply step_releasedObjects. intros v ->. done.
Qed.

(** With call stacks that are never empty, a stored context stays non-empty. *)
Lemma run_released_truthy (ops : list (op * string)) (st : state) (r : ref) :
  Forall (λ o, o.2 ≠ "") ops →
  (∃ context, releasedObjects st !! r = Some context ∧ context ≠ "") →
  ∃ context, releasedObjects (run ops st) !! r = Some context ∧ context ≠ "".
Proof.
  intros H. revert st. induction H as [|[o stack] ops Ho _ IH]; intros st; simpl; [done|].
  intros (context & Hc & Hne). apply IH.
  destruct (step_released_context o stack st r context Hc) as [H1|(v & _ & _ & H1)]; eauto.
Qed.

(** A tracked proxy stays tracked. *)
Lemma run_tracked (ops : list (op * string)) (st : state) (p target : ref) :
  heap st !! p = Some (Proxy target) → proxyToObject st !! p = Some target →
  heap (run ops st) !! p = Some (Proxy target) ∧ proxyToObject (run ops st) !! p = Some target.
Proof.
  intros H1 H2. destruct (run_evolves ops st) as [P _ T _ _]. split; [by apply P|].
  apply T; [by rewrite H1|done].
Qed.

Lemma WasReleased_eq (o : value) (st : state) :
  WasReleased o st
  = (Normal match WeakMap_get (proxyToObject st) o with
            | Some realObject => from_option truthy_string false (releasedObjects st !! realObject)
            | None => false
            end, st).
Proof. unfold WasReleased. munfold. simpl. by destruct (WeakMap_get _ o). Qed.

Lemma truthy_string_true (s : string) : s ≠ "" → truthy_string s = true.
Proof. intros H. unfold truthy_string, streq. by rewrite bool_decide_eq_false_2. Qed.

(** A stored release context is never removed. *)
Lemma run_released (ops : list (op * string)) (st : state) (r : ref) :
  is_Some (releasedObjects st !! r) → is_Some (releasedObjects (run ops st) !! r).
Proof. apply run_evolves. Qed.

(** C9.  [WasReleased] is a pure query: for any argument and any state it
    returns normally and leaves the state, reports included, exactly as it
    was.  For an argument with no tracked identity it answers false, and so
    it does for an instrumented instance (proxy [p], tracked for [target])
    that has not been released.  After [Release], and after any further
    operations, the instance is in the release record, and [WasReleased]
    answers by the truthiness of the call stack stored there: true when it
    is a non-empty string, as after releases from call sites that have a
    stack trace, and false when it is the empty one. *)
Theorem WasReleased_query (st : state) (p target : ref) (stack : string)
    (ops : list (op * string)) :
  heap st !! p = Some (Proxy target) →
  proxyToObject st !! p = Some target →
  releasedObjects st !! target = None →
  WasReleased (VObject p) st = (Normal false, st)
  ∧ (let st' := run ops (step (OpRelease (VObject p)) stack st).2 in
     ∃ context,
       releasedObjects st' !! target = Some context
       ∧ WasReleased (VObject p) st' = (Normal (truthy_string context), st')
       ∧ (Forall (λ o, is_release o.1 = false) ops → context = stack)
       ∧ (stack ≠ "" → Forall (λ o, o.2 ≠ "") ops → truthy_string context = true))
  ∧ (∀ o s, ∃ b, WasReleased o s = (Normal b, s))
  ∧ (∀ o s, WeakMap_get (proxyToObject s) o = None → WasReleased o s = (Normal false, s)).
Proof.
  intros Hp Ht Hr. split; [|split; [|split]].
  - rewrite WasReleased_eq. simpl. by rewrite Ht, Hr.
  - simpl. set (st1 := (step (OpRelease (VObject p)) stack st).2).
    assert (H1 : releasedObjects st1 !! target = Some stack).
    { subst st1. rewrite step_Release_releasedObjects. simpl. rewrite Ht.
      apply lookup_insert_eq. }
    destruct (run_tracked [(OpRelease (VObject p), stack)] st p target Hp Ht) as [Hp1 Ht1].
    fold st1 in Hp1, Ht1.
    destruct (run_tracked ops st1 p target Hp1 Ht1) as [_ Ht2].
    destruct (run_released ops st1 target) as [context Hc]; [by rewrite H1|].
    exists context. split; [done|]. split; [|split].
    + rewrite WasReleased_eq. simpl. by rewrite Ht2, Hc.
    + intros Hops. rewrite run_releasedObjects in Hc by done. congruence.
    + intros Hs Hops.
      destruct (run_released_truthy ops st1 target Hops) as (context' & Hc' & Hne);
        [by eauto|].
      apply truthy_string_true. congruence.
  - intros o s. rewrite WasReleased_eq. by eexists.
  - intros o s H. rewrite WasReleased_eq. by rewrite H.
Qed.






(** ** What the handler does to a released object *)

Lemma step_OpGet_eq (p target : ref) (k : key) (stack : string) (st : state) :
  heap st !! p = Some (Proxy target) →
  step (OpGet p k) stack st = defendHandler_get target k (set_callStack stack st).
Proof.
  intros H. unfold step, perform, read. munfold. simpl. by rewrite H.
Qed.

Lemma has_property_in_set_callStack (stack : string) (st : state) (r : ref) (k : key) :
  has_property_in (set_callStack stack st) r k = has_property_in st r k.
Proof. reflexivity. Qed.

Lemma get_property_in_set_callStack (stack : string) (st : state) (r : ref) (k : key) :
  get_property_in (set_callStack stack st) r k = get_property_in st r k.
Proof. reflexivity. Qed.


Lemma step_OpSet_eq (p target : ref) (k : key) (v : value) (stack : string) (st : state) :
  heap st !! p = Some (Proxy target) →
  step (OpSet p k v) stack st
  = match defendHandler_set target k v (set_callStack stack st) with
    | (Normal true, st') => (Normal v, st')
    | (Normal false, st') =>
        (Throw (TypeError "'set' on proxy: trap returned falsish"), st')
    | (Throw e, st') => (Throw e, st')
    end.
Proof.
  intros H. unfold step, perform, assign. munfold. simpl. rewrite H.
  by destruct (defendHandler_set _ _ _ _) as [[[]|e] st'].
Qed.




(** ** Reads of a released object *)



(** ** Shape records *)

(** Propositional goals about membership, up to substitution of equal names. *)
Ltac logic := intuition (subst; eauto; congruence).

Lemma Set_has_true (s : list string) (k : string) : Set_has s k = true ↔ k ∈ s.
Proof. unfold Set_has. apply bool_decide_eq_true. Qed.

Lemma Set_has_false (s : list string) (k : string) : Set_has s k = false ↔ k ∉ s.
Proof. unfold Set_has. apply bool_decide_eq_false. Qed.

Lemma elem_of_Set_delete (s : list string) (k x : string) :
  x ∈ Set_delete s k ↔ x ∈ s ∧ x ≠ k.
Proof. unfold Set_delete. rewrite list_elem_of_filter. logic. Qed.

Lemma NoDup_Set_delete (s : list string) (k : string) : NoDup s → NoDup (Set_delete s k).
Proof. apply NoDup_filter. Qed.

Lemma elem_of_Set_add (s : list string) (k x : string) : x ∈ Set_add s k ↔ x ∈ s ∨ x = k.
Proof.
  unfold Set_add. destruct (Set_has s k) eqn:E.
  - apply Set_has_true in E. logic.
  - rewrite elem_of_app, list_elem_of_singleton. logic.
Qed.

Lemma NoDup_Set_add (s : list string) (k : string) : NoDup s → NoDup (Set_add s k).
Proof.
  intros H. unfold Set_add. destruct (Set_has s k) eqn:E; [done|].
  apply Set_has_false in E. apply NoDup_app. split; [done|]. split.
  - intros x Hx ->%list_elem_of_singleton. done.
  - apply NoDup_singleton.
Qed.

Lemma foldl_Set_add (l acc : list string) :
  (∀ x, x ∈ foldl Set_add acc l ↔ x ∈ acc ∨ x ∈ l)
  ∧ (NoDup acc → NoDup (foldl Set_add acc l)).
Proof.
  revert acc. induction l as [|k l IH]; intros acc; simpl.
  - split; [|done]. intros x. rewrite elem_of_nil. logic.
  - destruct (IH (Set_add acc k)) as [IH1 IH2]. split.
    + intros x. rewrite IH1, elem_of_Set_add, elem_of_cons. logic.
    + intros H. by apply IH2, NoDup_Set_add.
Qed.

(** The property set of an object: its enumerable string keys, each once. *)
Lemma property_set_spec (st : state) (o : value) :
  (∀ k, k ∈ property_set st o ↔ k ∈ for_in_keys st o) ∧ NoDup (property_set st o).
Proof.
  unfold property_set. destruct (foldl_Set_add (for_in_keys st o) []) as [H1 H2]. split.
  - intros k. rewrite H1, elem_of_nil. logic.
  - apply H2, NoDup_nil_2.
Qed.

(** The loop over the recorded names. *)
Lemma foldl_compare_step (existing properties inconsistent : list string) :
  NoDup existing →
  let acc := foldl compare_step (properties, inconsistent) existing in
  (∀ x, x ∈ acc.1 ↔ x ∈ properties ∧ x ∉ existing)
  ∧ (∀ x, x ∈ acc.2 ↔ x ∈ inconsistent ∨ (x ∈ existing ∧ x ∉ properties))
  ∧ (NoDup properties → NoDup acc.1)
  ∧ (NoDup inconsistent → (∀ x, x ∈ inconsistent → x ∉ existing) → NoDup acc.2).
Proof.
  intros Hnd. revert properties inconsistent.
  induction Hnd as [|k existing Hk Hnd IH]; intros properties inconsistent; simpl.
  - split; [|split; [|split]]; try done; intros x; rewrite elem_of_nil; logic.
  - unfold compare_step at 2 4 6 8. simpl. destruct (Set_has properties k) eqn:E.
    + apply Set_has_true in E.
      destruct (IH (Set_delete properties k) inconsistent) as (H1 & H2 & H3 & H4).
      split; [|split; [|split]].
      * intros x. rewrite H1, elem_of_Set_delete, elem_of_cons. logic.
      * intros x. rewrite H2, elem_of_Set_delete, elem_of_cons.
        split; [|logic].
        intros [?|[? Hx]]; [by left|]. right. split; [by right|].
        intros ?. apply Hx. split; [done|]. by intros ->.
      * intros ?. by apply H3, NoDup_Set_delete.
      * intros ? Hdisj. apply H4; [done|]. intros x Hx ?. apply (Hdisj x Hx). by right.
    + apply Set_has_false in E.
      destruct (IH properties (inconsistent ++ [k])%list) as (H1 & H2 & H3 & H4).
      split; [|split; [|split]].
      * intros x. rewrite H1, elem_of_cons. logic.
      * intros x. rewrite H2, elem_of_app, list_elem_of_singleton, elem_of_cons. logic.
      * done.
      * intros Hi Hdisj. apply H4.
        -- apply NoDup_app. split; [done|]. split; [|apply NoDup_singleton].
           intros x Hx ->%list_elem_of_singleton. apply (Hdisj k Hx). by left.
        -- intros x [Hx| ->%list_elem_of_singleton]%elem_of_app; [|done].
           intros ?. apply (Hdisj x Hx). by right.
Qed.

(** The reported names are exactly the symmetric difference, each once. *)
Lemma inconsistent_properties_spec (existing properties : list string) :
  NoDup existing → NoDup properties →
  (∀ k, k ∈ inconsistent_properties existing properties
        ↔ (k ∈ existing ∧ k ∉ properties) ∨ (k ∈ properties ∧ k ∉ existing))
  ∧ NoDup (inconsistent_properties existing properties).
Proof.
  intros He Hp. unfold inconsistent_properties.
  destruct (foldl_compare_step existing properties [] He) as (H1 & H2 & H3 & H4).
  simpl in *. split.
  - intros k. rewrite elem_of_app, H1, H2, elem_of_nil. logic.
  - apply NoDup_app. split; [|split].
    + apply H4; [apply NoDup_nil_2|]. intros x. by rewrite elem_of_nil.
    + intros x. rewrite H1, H2, elem_of_nil. logic.
    + by apply H3.
Qed.

Lemma VerifyObjectPropertiesConsistent_eq (c : classid) (o : value) (st : state) :
  VerifyObjectPropertiesConsistent c o st = (verified_completion c o st, verified c o st).
Proof.
  unfold VerifyObjectPropertiesConsistent, GetObjectPropertySet, getName, verified,
    verified_completion.
  munfold. simpl.
  destruct (typeProperties st !! c) as [existing|]; [|done].
  destruct (bool_decide _); simpl; [done|].
  by rewrite logDefendedObjectWarning_eq.
Qed.

Lemma New_eq (c : classid) (args : list value) (st : state) :
  New (VFunction c) args st
  = match construct c args st with
    | (Normal o, st1) =>
        (when (streq (mode st1) "defend") (VerifyObjectPropertiesConsistent c o)
         ≫= λ _, Defend o) st1
    | (Throw e, st1) => (Throw e, set_ctorObjectToProxy [] (set_ctorProxyToObject [] st1))
    end.
Proof.
  unfold New. simpl. unfold mbind at 1, M_bind at 1. unfold try_catch.
  destruct (construct c args st) as [[o|e] st1]; [|done].
  unfold mbind at 1, M_bind at 1. unfold gets. done.
Qed.

(** In mode "defend" the final step of [New] hands the instance back. *)
Lemma Defend_in_defend_mode (r : ref) (st : state) :
  mode st = "defend" → (Defend (VObject r) st).1 = Normal (VObject r).
Proof.
  intros Hm. unfold Defend. munfold. simpl. rewrite Hm. simpl.
  match goal with |- context [if ?b then _ else _] => destruct b end; [|done].
  by destruct (al_get (ctorProxyToObject st) r).
Qed.

Lemma construct_object (c : classid) (args : list value) (st st1 : state) (o : value) :
  construct c args st = (Normal o, st1) → ∃ r, o = VObject r.
Proof.
  unfold construct. munfold.
  destruct (Object_create c st) as [[this0|e0] s0]; [|done].
  destruct (if extends_DefendedBase (classes c) then _ else _) as [[r|e1] s1]; [|done].
  destruct (run_body _ _ s1) as [[[]|e2] s2]; [|done].
  intros [= <- <-]. by eexists.
Qed.

(** C5.  The shape check of a class with no record stores the property-name
    set of the instance as the record and reports nothing.  With a record
    (a set, so without repetition) it leaves the record as it is and reports
    once, naming exactly the names in the symmetric difference of the record
    and the instance's property-name set, each once, when that difference is
    not empty, and nothing otherwise; it completes normally unless the sink
    throws.  No later run of operations changes a stored record.  In mode
    "defend", [New] ends with exactly the record and the reports that the
    check of the instance its constructor produced leaves, and returns that
    instance when the check completes normally. *)
Theorem shape_record_baseline (st : state) (c : classid) (o : value)
    (ops : list (op * string)) :
  let properties := property_set st o in
  let st' := (VerifyObjectPropertiesConsistent c o st).2 in
  (∀ k, k ∈ properties ↔ k ∈ for_in_keys st o)
  ∧ (typeProperties st !! c = None →
     (VerifyObjectPropertiesConsistent c o st).1 = Normal tt
     ∧ typeProperties st' = <[c := properties]> (typeProperties st)
     ∧ reports st' = reports st)
  ∧ (∀ record, typeProperties st !! c = Some record → NoDup record →
       let differing := inconsistent_properties record properties in
       let msg := inconsistent_message (getName_in st (VFunction c)) differing in
       typeProperties st' = typeProperties st
       ∧ (∀ k, k ∈ differing ↔ (k ∈ record ∧ k ∉ properties) ∨ (k ∈ properties ∧ k ∉ record))
       ∧ NoDup differing
       ∧ reports st'
         = (reports st
            ++ (if bool_decide (differing = []) then []
                else [{| rep_sink := warningCallback st; rep_msg := msg;
                         rep_stack := callStack st |}]))%list
       ∧ (VerifyObjectPropertiesConsistent c o st).1
         = (if bool_decide (differing = []) then Normal tt else reported st msg tt))
  ∧ (∀ record, typeProperties st !! c = Some record →
       typeProperties (run ops st) !! c = Some record)
  ∧ (∀ st0 args, mode st0 = "defend" → construct c args st0 = (Normal o, st) →
       (New (VFunction c) args st0).1
       = match (VerifyObjectPropertiesConsistent c o st).1 with
         | Normal _ => Normal o
         | Throw e => Throw e
         end
       ∧ typeProperties (New (VFunction c) args st0).2 = typeProperties st'
       ∧ reports (New (VFunction c) args st0).2 = reports st').
Proof.
  intros properties st'.
  assert (HNew : ∀ st0 args, mode st0 = "defend" → construct c args st0 = (Normal o, st) →
       (New (VFunction c) args st0).1
       = match (VerifyObjectPropertiesConsistent c o st).1 with
         | Normal _ => Normal o
         | Throw e => Throw e
         end
       ∧ typeProperties (New (VFunction c) args st0).2 = typeProperties st'
       ∧ reports (New (VFunction c) args st0).2 = reports st').
  { intros st0 args Hm H. destruct (construct_object _ _ _ _ _ H) as [r ->].
    pose proof (construct_mode c args st0) as Hm1. rewrite H, Hm in Hm1. simpl in Hm1.
    rewrite New_eq, H. unfold mbind, M_bind. rewrite Hm1. simpl. subst st'.
    rewrite VerifyObjectPropertiesConsistent_eq. simpl.
    destruct (verified_completion c (VObject r) st) as [[]|e]; [|done].
    assert (Hm2 : mode (verified c (VObject r) st) = "defend").
    { unfold verified. destruct (typeProperties st !! c); [|done]. by destruct (bool_decide _). }
    pose proof (Defend_in_defend_mode r _ Hm2) as H1.
    pose proof (Defend_typeProperties (VObject r) (verified c (VObject r) st)) as H2.
    pose proof (Defend_reports (VObject r) (verified c (VObject r) st)) as H3.
    by destruct (Defend (VObject r) _) as [res st3]. }
  subst st'. rewrite VerifyObjectPropertiesConsistent_eq in *. simpl in *.
  subst properties. unfold verified, verified_completion in *.
  destruct (property_set_spec st o) as [Hmem Hnd].
  split; [done|]. split; [|split; [|split; [|exact HNew]]].
  - by intros ->.
  - intros record -> Hrec.
    destruct (inconsistent_properties_spec record (property_set st o) Hrec Hnd) as [H1 H2].
    destruct (inconsistent_properties record (property_set st o)) as [|k differing']; simpl.
    + split; [done|]. split; [done|]. split; [done|]. by rewrite app_nil_r.
    + done.
  - intros record H. by apply (evolves_typeProperties _ _ (run_evolves ops st)).
Qed.

(** ** [New] *)

(** C6.  When the constructor of the class throws, [New] clears both
    construction session maps entirely, whatever sessions they held, leaves
    every shape record as it was before the call, and throws the same
    error. *)
Theorem New_constructor_error (st : state) (c : classid) (args : list value) (e : exn)
    (st1 : state) :
  construct c args st = (Throw e, st1) →
  New (VFunction c) args st
  = (Throw e, set_ctorObjectToProxy [] (set_ctorProxyToObject [] st1))
  ∧ ctorProxyToObject (New (VFunction c) args st).2 = []
  ∧ ctorObjectToProxy (New (VFunction c) args st).2 = []
  ∧ typeProperties (New (VFunction c) args st).2 = typeProperties st.
Proof.
  intros H. rewrite New_eq, H. simpl. repeat split.
  pose proof (construct_typeProperties c args st) as Ht. by rewrite H in Ht.
Qed.

Lemma run_body_evolves (this : ref) (body : list stmt) : advances evolves (run_body this body).
Proof.
  apply run_body_advances; first apply _; auto using put_property_evolves.
  intros; by apply evolves_same.
Qed.

(** The instance of a class that does not extend [DefendedBase] is the
    ordinary object that [new] allocated. *)
Lemma construct_plain (c : classid) (args : list value) (st st1 : state) (o : value) :
  extends_DefendedBase (classes c) = false →
  construct c args st = (Normal o, st1) →
  ∃ r obj, o = VObject r ∧ heap st1 !! r = Some (Ordinary obj) ∧ obj_class obj = c.
Proof.
  intros Hc. unfold construct, Object_create, alloc. rewrite Hc. munfold. simpl.
  set (r := fresh (dom (heap st))). set (st0 := set_heap _ st).
  pose proof (run_body_evolves r (constructor_body (classes c) args) st0) as Hev.
  destruct (run_body r _ st0) as [[[]|e] st2]; simpl in *; [|done].
  intros [= <- <-].
  destruct (evolves_ordinary _ _ Hev r
              {| obj_class := c; obj_props := []; obj_extensible := true |})
    as (obj & H1 & H2).
  { subst st0. simpl. apply lookup_insert_eq. }
  by exists r, obj.
Qed.

Lemma Defend_plain (st : state) (r : ref) (obj : object) :
  mode st = "defend" →
  heap st !! r = Some (Ordinary obj) →
  extends_DefendedBase (classes (obj_class obj)) = false →
  Defend (VObject r) st = (Normal (VObject r), st).
Proof.
  intros Hm Hr Hc. unfold Defend. munfold. simpl. by rewrite Hm, Hr, Hc.
Qed.

(** C10.  In mode "defend", [New] of a class that does not extend
    [DefendedBase] runs the shape check on the constructed instance and,
    when the check completes normally (it does unless the sink throws),
    returns that instance unwrapped (the ordinary object, no proxy): the
    state [New] ends in is the one the check leaves, so a class without a
    record acquires one, and an instance that differs from the record is
    reported. *)
Theorem New_checks_plain_classes (st : state) (c : classid) (args : list value) (o : value)
    (st1 : state) :
  mode st = "defend" →
  extends_DefendedBase (classes c) = false →
  construct c args st = (Normal o, st1) →
  let st2 := (VerifyObjectPropertiesConsistent c o st1).2 in
  New (VFunction c) args st
  = (match (VerifyObjectPropertiesConsistent c o st1).1 with
     | Normal _ => Normal o
     | Throw e => Throw e
     end, st2)
  ∧ (∃ r obj, o = VObject r ∧ heap st2 !! r = Some (Ordinary obj) ∧ obj_class obj = c)
  ∧ (typeProperties st !! c = None →
     (VerifyObjectPropertiesConsistent c o st1).1 = Normal tt
     ∧ typeProperties st2 !! c = Some (property_set st1 o) ∧ reports st2 = reports st1)
  ∧ (∀ record, typeProperties st !! c = Some record →
       inconsistent_properties record (property_set st1 o) ≠ [] →
       let msg := inconsistent_message (getName_in st1 (VFunction c))
                    (inconsistent_properties record (property_set st1 o)) in
       (VerifyObjectPropertiesConsistent c o st1).1 = reported st1 msg tt
       ∧ typeProperties st2 !! c = Some record
       ∧ reports st2
         = (reports st1
            ++ [{| rep_sink := warningCallback st1; rep_msg := msg;
                   rep_stack := callStack st1 |}])%list).
Proof.
  intros Hm Hc H st2.
  destruct (construct_plain c args st st1 o Hc H) as (r & obj & -> & Hr & Hcls).
  pose proof (construct_mode c args st) as Hm1. rewrite H in Hm1. simpl in Hm1.
  pose proof (construct_typeProperties c args st) as Ht1. rewrite H in Ht1. simpl in Ht1.
  rewrite Hm in Hm1. subst st2.
  rewrite VerifyObjectPropertiesConsistent_eq. simpl.
  assert (Hheap : heap (verified c (VObject r) st1) = heap st1
                  ∧ mode (verified c (VObject r) st1) = "defend").
  { unfold verified. destruct (typeProperties st1 !! c); [|done]. by destruct (bool_decide _). }
  destruct Hheap as [Hheap Hm2].
  split; [|split; [|split]].
  - rewrite New_eq, H. unfold mbind, M_bind. rewrite Hm1. simpl.
    rewrite VerifyObjectPropertiesConsistent_eq.
    destruct (verified_completion c (VObject r) st1) as [[]|e]; [|done].
    apply (Defend_plain _ r obj); [done|by rewrite Hheap|by rewrite Hcls].
  - exists r, obj. by rewrite Hheap.
  - intros Hnone. unfold verified, verified_completion. rewrite Ht1, Hnone. simpl.
    by rewrite lookup_insert_eq.
  - intros record Hrec Hdiff. unfold verified, verified_completion. rewrite Ht1, Hrec.
    rewrite bool_decide_eq_false_2.
    + simpl. by rewrite Ht1.
    + by intros ?%nil_length_inv.
Qed.

(** ** Writes through the wrapper *)

Lemma al_get_al_set_eq {K V : Type} `{EqDecision K} (m : list (K * V)) (k : K) (v : V) :
  al_get (al_set m k v) k = Some v.
Proof.
  induction m as [|[k' v'] m IH]; simpl.
  - by rewrite decide_True.
  - destruct (decide (k' = k)) as [->|Hne]; simpl.
    + by rewrite decide_True.
    + by rewrite decide_False.
Qed.




(** A report about a symbol key cannot be built: the template literal throws
    and the state is left as it was. *)
Lemma defendHandler_set_symbol_throws (st : state) (target : ref) (d : string) (v : value) :
  is_Some (releasedObjects st !! target)
  ∨ (has_property_in st target (KSymbol d) = false
     ∧ al_has (ctorObjectToProxy st) target = false)
  ∨ (isValidTypeChange (get_property_in st target (KSymbol d)) v = false
     ∧ al_has (ctorObjectToProxy st) target = false) →
  defendHandler_set target (KSymbol d) v st
  = (Throw (TypeError "Cannot convert a Symbol value to a string"), st).
Proof.
  intros H. unfold defendHandler_set, has_property, get_property, getName, template_key.
  munfold. simpl.
  destruct (releasedObjects st !! target) as [context|] eqn:E; simpl; [done|].
  destruct H as [[? [=]]|[[-> ->]|[-> ->]]]; simpl; [done|].
  by destruct (has_property_in st target (KSymbol d)).
Qed.

(** ** Further properties of the exported behaviour *)




(** X3.  [SetMode] accepts exactly the three mode names and rejects every
    other value with an error, leaving the mode as it was;
    [SetWarningCallback] accepts exactly functions. *)
Theorem SetMode_SetWarningCallback_validate (m f : value) (st : state) :
  SetMode m st
  = (if bool_decide (m ∈ [VString "defend"; VString "seal"; VString "off"])
     then (Normal tt, set_mode (match m with VString s => s | _ => "" end) st)
     else (Throw (Error "invalid mode"), st))
  ∧ SetWarningCallback f st
    = (if bool_decide (classify f = CFunction)
       then (Normal tt, set_warningCallback (Some f) st)
       else (Throw (TypeError "expected function"), st)).
Proof.
  split.
  - unfold SetMode, VALID_MODES. destruct m as [| | | | |s| | | |]; try done.
    simpl. munfold.
    destruct (decide (s ∈ ["defend"; "seal"; "off"])) as [Hin|Hout].
    + rewrite (bool_decide_eq_true_2 _ Hin).
      rewrite bool_decide_eq_true_2; [done|].
      rewrite !elem_of_cons in Hin. rewrite !elem_of_cons.
      destruct Hin as [->|[->|[->|[]%elem_of_nil]]]; auto.
    + rewrite (bool_decide_eq_false_2 _ Hout).
      rewrite bool_decide_eq_false_2; [done|].
      rewrite !elem_of_cons in Hout. rewrite !elem_of_cons, elem_of_nil.
      intros [[= ->]|[[= ->]|[[= ->]|[]]]]; apply Hout; auto.
  - unfold SetWarningCallback. by destruct f.
Qed.


(** ** Reads that are never reported *)

(** X4.  A read through a wrapper of a symbol key, or of one of the
    whitelisted keys, never calls the sink, whether or not the key exists
    and whether or not the object was released: it returns what the target
    holds and changes nothing. *)
Theorem quiet_keys_never_reported (st : state) (p target : ref) (k : key) (stack : string) :
  heap st !! p = Some (Proxy target) →
  typeof_key k = "symbol" ∨ VALID_GET_MISSING_KEYS_has k = true →
  step (OpGet p k) stack st
  = (Normal (get_property_in st target k), set_callStack stack st).
Proof.
  intros Hp Hk. rewrite (step_OpGet_eq p target) by done.
  unfold defendHandler_get, has_property, get_property. munfold.
  assert (Hq : negb (streq (typeof_key k) "symbol") && negb (VALID_GET_MISSING_KEYS_has k)
               = false).
  { destruct Hk as [-> | ->]; [done|]. by rewrite andb_false_r. }
  rewrite <- !andb_assoc, Hq, !andb_false_r. simpl.
  rewrite <- !andb_assoc, Hq, !andb_false_r. done.
Qed.

(** ** The type-compatibility rule as a relation *)

(** X5.  The rule is symmetric, and it rejects writing a value over a value
    of its own kind exactly when that value is [undefined]. *)
Theorem isValidTypeChange_symmetric (a b : value) :
  isValidTypeChange a b = isValidTypeChange b a
  ∧ (isValidTypeChange a a = false ↔ a = VUndefined)
  ∧ (classify a = classify b → isValidTypeChange a b = isValidTypeChange a a).
Proof.
  rewrite !isValidTypeChange_classify. split; [|split].
  - by destruct (classify a), (classify b).
  - by destruct a.
  - intros ->. done.
Qed.

(** ** The shape comparison as a function of two sets *)

Lemma filter_ext_elem {A} (P Q : A → Prop) `{!∀ x, Decision (P x), !∀ x, Decision (Q x)}
    (l : list A) :
  (∀ x, x ∈ l → P x ↔ Q x) → filter P l = filter Q l.
Proof.
  induction l as [|a l IH]; intros Hext; [done|].
  rewrite !filter_cons, IH.
  - apply decide_ext, Hext. by left.
  - intros x Hx. apply Hext. by right.
Qed.

Lemma filter_all {A} (P : A → Prop) `{!∀ x, Decision (P x)} (l : list A) :
  (∀ x, x ∈ l → P x) → filter P l = l.
Proof.
  induction l as [|a l IH]; intros Hall; [done|].
  rewrite filter_cons_True by (apply Hall; by left). f_equal. apply IH.
  intros x Hx. apply Hall. by right.
Qed.

Lemma foldl_compare_step_eq (existing properties inconsistent : list string) :
  NoDup existing →
  foldl compare_step (properties, inconsistent) existing
  = (filter (λ k, k ∉ existing) properties,
     (inconsistent ++ filter (λ k, k ∉ properties) existing)%list).
Proof.
  intros Hnd. revert properties inconsistent.
  induction Hnd as [|k existing Hk Hnd IH]; intros properties inconsistent; simpl.
  - rewrite app_nil_r, filter_all; [done|]. intros x _. apply not_elem_of_nil.
  - unfold compare_step at 2. simpl. destruct (Set_has properties k) eqn:E.
    + apply Set_has_true in E. rewrite IH. unfold Set_delete. f_equal.
      * rewrite list_filter_filter. apply list_filter_iff. intros x.
        rewrite not_elem_of_cons. logic.
      * rewrite (filter_cons_False _ k) by (intros H; by apply H). f_equal.
        apply filter_ext_elem. intros x Hx. rewrite list_elem_of_filter.
        split; [|logic]. intros H Hp. apply H. split; [|done]. by intros ->.
    + apply Set_has_false in E. rewrite IH. f_equal.
      * apply filter_ext_elem. intros x Hx. rewrite not_elem_of_cons.
        split; [|logic]. intros H. split; [|done]. by intros ->.
      * by rewrite (filter_cons_True _ k), <- app_assoc by done.
Qed.

(** X6.  The names the shape check reports are, first, the recorded names
    that the instance lacks, in the order of the record, and then the names
    of the instance that the record lacks, in the order of the instance. *)
Theorem inconsistent_properties_listing (existing properties : list string) :
  NoDup existing →
  inconsistent_properties existing properties
  = (filter (λ k, k ∉ properties) existing ++ filter (λ k, k ∉ existing) properties)%list.
Proof.
  intros H. unfold inconsistent_properties. by rewrite foldl_compare_step_eq.
Qed.

(** X7.  With a record stored for the class, the shape check is silent
    exactly when the instance has the recorded names, in whatever order they
    were assigned: then it changes nothing at all. *)
Theorem shape_check_ignores_order (st : state) (c : classid) (o : value)
    (record : list string) :
  typeProperties st !! c = Some record →
  NoDup record →
  VerifyObjectPropertiesConsistent c o st = (Normal tt, st)
  ↔ (∀ k, k ∈ record ↔ k ∈ for_in_keys st o).
Proof.
  intros Hrec Hnd. rewrite VerifyObjectPropertiesConsistent_eq.
  unfold verified, verified_completion. rewrite Hrec.
  destruct (property_set_spec st o) as [Hmem Hnd'].
  destruct (inconsistent_properties_spec record (property_set st o) Hnd Hnd') as [Hdiff _].
  destruct (inconsistent_properties record (property_set st o)) as [|x l] eqn:E; simpl.
  - split; [intros _|done]. intros k. rewrite <- Hmem.
    specialize (Hdiff k). rewrite elem_of_nil in Hdiff.
    destruct (decide (k ∈ record)), (decide (k ∈ property_set st o)); logic.
  - split.
    + intros [= _ H]. apply (f_equal reports) in H. simpl in H.
      apply (f_equal length) in H. rewrite length_app in H. simpl in H. lia.
    + intros H. exfalso. specialize (Hdiff x). specialize (H x).
      rewrite <- Hmem in H. destruct Hdiff as [Hdiff _].
      destruct Hdiff as [[? ?]|[? ?]]; [by left|logic..].
Qed.

(** ** Names in messages *)

(** X8.  [getName] gives every value a name that is not empty: the name of
    a function, or of the function that an object holds as its
    [constructor], when that name is a usable one, and a bracketed
    placeholder otherwise.  The name of an instance follows its
    [constructor] member: once a write of another class to it has gone
    through the wrapper, the messages about the instance name that class. *)
Theorem getName_never_empty (st : state) (o : value) :
  getName_in st o ≠ ""
  ∧ (∀ c, o = VFunction c →
       getName_in st o
       = if bool_decide (class_name (classes c) ∈ [""; "Function"])
         then "<anonymous function>" else class_name (classes c))
  ∧ (∀ r obj c, o = VObject r → heap st !! r = Some (Ordinary obj) →
       get_property_in st r (KString "constructor") = VFunction c →
       getName_in st o
       = if bool_decide (class_name (classes c) ∈ [""; "Object"])
         then "<anonymous object>" else class_name (classes c))
  ∧ (∀ p r obj c c' stack,
       o = VObject r → heap st !! p = Some (Proxy r) → heap st !! r = Some (Ordinary obj) →
       releasedObjects st !! r = None →
       has_property_in st r (KString "constructor") = true →
       get_property_in st r (KString "constructor") = VFunction c →
       obj_extensible obj = true →
       getName_in (step (OpSet p (KString "constructor") (VFunction c')) stack st).2 o
       = if bool_decide (class_name (classes c') ∈ [""; "Object"])
         then "<anonymous object>" else class_name (classes c')).
Proof.
  assert (Hname : ∀ (name other placeholder : string),
            placeholder ≠ "" →
            (if truthy_string name && negb (streq name other) then name else placeholder)
            = (if bool_decide (name ∈ [""; other]) then placeholder else name)
            ∧ (if truthy_string name && negb (streq name other) then name else placeholder)
              ≠ "").
  { intros name other placeholder Hp. unfold truthy_string, streq.
    destruct (decide (name = "")) as [->|H1].
    - done.
    - rewrite (bool_decide_eq_false_2 (name = "")) by done. simpl.
      destruct (decide (name = other)) as [->|H2].
      + rewrite bool_decide_eq_true_2 by done. simpl.
        rewrite bool_decide_eq_true_2 by (right; by left). done.
      + rewrite (bool_decide_eq_false_2 (name = other)) by done. simpl.
        rewrite bool_decide_eq_false_2; [done|].
        rewrite !elem_of_cons, elem_of_nil. logic. }
  assert (Hobj : ∀ s r obj c, heap s !! r = Some (Ordinary obj) →
            get_property_in s r (KString "constructor") = VFunction c →
            getName_in s (VObject r)
            = if bool_decide (class_name (classes c) ∈ [""; "Object"])
              then "<anonymous object>" else class_name (classes c)).
  { intros s r obj c Hr Hc. unfold getName_in, constructor_name, wrapper_target. simpl.
    rewrite Hr. simpl. rewrite Hc. simpl. apply Hname. done. }
  split; [|split; [|split]].
  - destruct o as [| |b|n|n|s|d|r|r|c]; try done.
    + unfold getName_in. simpl. apply Hname. done.
    + unfold getName_in. simpl. apply Hname. done.
  - intros c ->. unfold getName_in. simpl. apply Hname. done.
  - intros r obj c -> Hr Hc. by apply (Hobj st r obj c).
  - intros p r obj c c' stack -> Hp Hr Hrel Hk Hc Hext.
    rewrite (step_OpSet_eq p r) by done.
    rewrite defendHandler_set_performed;
      [|done|by left|left; rewrite get_property_in_set_callStack, Hc; done].
    unfold mbind, M_bind.
    rewrite (put_property_ok _ r _ _ obj); [|done|by rewrite Hext, orb_true_r].
    simpl. eapply Hobj.
    + simpl. apply lookup_insert_eq.
    + unfold get_property_in. simpl. rewrite lookup_insert_eq. simpl.
      by rewrite al_get_al_set_eq.
Qed.

(** ** Reads change no object *)


(** ** Insertion-ordered maps *)

Section alist_facts.
Context {K V : Type} `{EqDecision K}.
Implicit Types (m : list (K * V)) (k : K) (v : V).

Lemma al_get_al_set_ne m k k' v : k ≠ k' → al_get (al_set m k v) k' = al_get m k'.
Proof.
  intros Hne. induction m as [|[k0 v0] m IH]; simpl.
  - by rewrite decide_False.
  - destruct (decide (k0 = k)) as [->|Hk]; simpl.
    + by rewrite !decide_False.
    + by rewrite IH.
Qed.

Lemma al_get_al_delete_eq m k : al_get (al_delete m k) k = None.
Proof.
  induction m as [|[k0 v0] m IH]; simpl; [done|].
  destruct (decide (k0 = k)) as [->|Hk]; simpl; [done|]. by rewrite decide_False.
Qed.

Lemma al_get_al_delete_ne m k k' : k ≠ k' → al_get (al_delete m k) k' = al_get m k'.
Proof.
  intros Hne. induction m as [|[k0 v0] m IH]; simpl; [done|].
  destruct (decide (k0 = k)) as [->|Hk]; simpl.
  - by rewrite decide_False.
  - by rewrite IH.
Qed.

Lemma al_delete_absent m k : al_get m k = None → al_delete m k = m.
Proof.
  induction m as [|[k0 v0] m IH]; simpl; [done|].
  destruct (decide (k0 = k)) as [->|Hk]; [done|]. intros H. by rewrite IH.
Qed.

(** Setting a key that was absent and deleting it again gives the map back. *)
Lemma al_delete_al_set m k v : al_get m k = None → al_delete (al_set m k v) k = m.
Proof.
  induction m as [|[k0 v0] m IH]; simpl.
  - by rewrite decide_True.
  - destruct (decide (k0 = k)) as [->|Hk]; [done|]. intros H. simpl.
    by rewrite decide_False, IH.
Qed.

Lemma al_has_true m k : al_has m k = true ↔ is_Some (al_get m k).
Proof. unfold al_has. apply bool_decide_eq_true. Qed.

Lemma al_has_false m k : al_has m k = false ↔ al_get m k = None.
Proof. unfold al_has. rewrite bool_decide_eq_false. by rewrite eq_None_not_Some. Qed.
End alist_facts.

(** ** Constructor bodies *)

Lemma set_heap_same (st : state) : set_heap (heap st) st = st.
Proof. by destruct st. Qed.

Lemma set_heap_set_heap (h h' : gmap ref cell) (st : state) :
  set_heap h' (set_heap h st) = set_heap h' st.
Proof. done. Qed.

(** On an ordinary, extensible object a constructor body performs its
    assignments one after the other, up to its first [throw]. *)
Lemma run_body_ordinary (this : ref) (body : list stmt) (st : state) (obj : object) :
  heap st !! this = Some (Ordinary obj) →
  obj_extensible obj = true →
  run_body this body st
  = (body_completion body,
     set_heap (<[this := Ordinary {| obj_class := obj_class obj;
                                     obj_props := body_props (obj_props obj) body;
                                     obj_extensible := true |}]> (heap st)) st).
Proof.
  revert st obj. induction body as [|[k v|v] rest IH]; intros st obj Hthis Hext.
  - simpl. rewrite insert_id, set_heap_same; [done|].
    rewrite Hthis. destruct obj; simpl in *. by subst.
  - simpl. unfold mbind at 1, M_bind at 1. unfold assign. munfold. rewrite Hthis.
    rewrite (put_property_ok _ _ _ _ obj) by (by rewrite ?Hext, ?orb_true_r).
    rewrite (IH _ {| obj_class := obj_class obj; obj_props := al_set (obj_props obj) k v;
                     obj_extensible := obj_extensible obj |});
      [|simpl; apply lookup_insert_eq|done].
    simpl. by rewrite insert_insert_eq.
  - simpl. unfold throw. rewrite insert_id, set_heap_same; [done|].
    rewrite Hthis. destruct obj; simpl in *. by subst.
Qed.

(** Through a wrapper whose construction session is open, on an instance
    that is extensible and not released, it does the same and reports
    nothing. *)
Lemma run_body_wrapper (p target : ref) (body : list stmt) (st : state) (obj : object) :
  heap st !! p = Some (Proxy target) →
  heap st !! target = Some (Ordinary obj) →
  obj_extensible obj = true →
  releasedObjects st !! target = None →
  al_has (ctorObjectToProxy st) target = true →
  run_body p body st
  = (body_completion body,
     set_heap (<[target := Ordinary {| obj_class := obj_class obj;
                                       obj_props := body_props (obj_props obj) body;
                                       obj_extensible := true |}]> (heap st)) st).
Proof.
  revert st obj. induction body as [|[k v|v] rest IH]; intros st obj Hp Ht Hext Hr Hc.
  - simpl. rewrite insert_id, set_heap_same; [done|].
    rewrite Ht. destruct obj; simpl in *. by subst.
  - assert (Hne : p ≠ target) by (intros ->; congruence).
    simpl. unfold mbind at 1, M_bind at 1. unfold assign. munfold. rewrite Hp.
    rewrite defendHandler_set_performed; [|done|by right|by right].
    unfold mbind, M_bind.
    rewrite (put_property_ok _ _ _ _ obj) by (by rewrite ?Hext, ?orb_true_r).
    unfold mret, M_ret.
    rewrite (IH _ {| obj_class := obj_class obj; obj_props := al_set (obj_props obj) k v;
                     obj_extensible := obj_extensible obj |});
      [|simpl; by rewrite lookup_insert_ne|simpl; apply lookup_insert_eq|done..].
    simpl. by rewrite insert_insert_eq.
  - simpl. unfold throw. rewrite insert_id, set_heap_same; [done|].
    rewrite Ht. destruct obj; simpl in *. by subst.
Qed.

(** ** What [new] builds *)

(** Without a wrapper (the class does not extend [DefendedBase], or the mode
    is not "defend"), [new] allocates one ordinary object, runs the body on
    it, and touches nothing else. *)
Lemma construct_unwrapped (c : classid) (args : list value) (st : state) :
  extends_DefendedBase (classes c) = false ∨ mode st ≠ "defend" →
  construct c args st
  = (construct_completion c args (VObject (fresh (dom (heap st)))),
     set_heap (<[fresh (dom (heap st)) := Ordinary (constructed c args)]> (heap st)) st).
Proof.
  intros H. unfold construct, Object_create, alloc. munfold. simpl.
  set (r := fresh (dom (heap st))).
  set (st0 := set_heap _ st).
  assert (Hbase : (if extends_DefendedBase (classes c) then DefendedBase_constructor c
                   else mret VUndefined) st0 = (Normal VUndefined, st0)).
  { destruct (extends_DefendedBase (classes c)); [|done].
    destruct H as [?|Hm]; [done|]. unfold DefendedBase_constructor. munfold. simpl.
    unfold streq. by rewrite bool_decide_eq_false_2. }
  munfold. rewrite Hbase.
  rewrite (run_body_ordinary r _ st0
             {| obj_class := c; obj_props := []; obj_extensible := true |});
    [|subst st0; simpl; apply lookup_insert_eq|done].
  unfold construct_completion, constructed. subst st0. simpl. rewrite insert_insert_eq.
  by destruct (body_completion _) as [[]|e].
Qed.

(** In mode "defend" a class that extends [DefendedBase] gets a fresh
    instance behind a fresh wrapper, registered in the weak table and in
    both session maps; the timer is requested unless one is pending; the
    body runs through the wrapper, unchecked and unreported. *)
Lemma construct_wrapped (c : classid) (args : list value) (st : state) :
  extends_DefendedBase (classes c) = true →
  mode st = "defend" →
  releasedObjects st !! fresh_instance c st = None →
  let empty := Ordinary {| obj_class := c; obj_props := []; obj_extensible := true |} in
  let r := fresh_instance c st in
  let p := fresh_wrapper c st in
  let pending := bool_decide (checkTimerId st = (-1)%Z) in
  construct c args st
  = (construct_completion c args (VObject p),
     {| mode := mode st; warningCallback := warningCallback st;
        ctorObjectToProxy := al_set (ctorObjectToProxy st) r p;
        ctorProxyToObject := al_set (ctorProxyToObject st) p r;
        proxyToObject := <[p := r]> (proxyToObject st);
        releasedObjects := releasedObjects st; typeProperties := typeProperties st;
        checkTimerId := if pending then (timers st + 1)%Z else checkTimerId st;
        heap := <[r := Ordinary (constructed c args)]>
                  (<[p := Proxy r]> (<[r := empty]> (<[fresh (dom (heap st)) := empty]> (heap st))));
        callStack := callStack st;
        timers := if pending then (timers st + 1)%Z else timers st;
        reports := reports st |}).
Proof.
  intros Hc Hm Hreleased empty r p pending.
  unfold construct, Object_create, alloc. rewrite Hc. munfold. simpl.
  unfold DefendedBase_constructor, Object_create, new_Proxy, alloc, setTimeout. munfold.
  simpl. unfold streq. rewrite (bool_decide_eq_true_2 (mode st = "defend")) by done. simpl.
  fold empty. change (fresh (dom (<[fresh (dom (heap st)):=empty]> (heap st)))) with r.
  change (fresh (dom (<[r:=empty]> (<[fresh (dom (heap st)):=empty]> (heap st))))) with p.
  set (this0 := fresh (dom (heap st))).
  set (h1 := <[r:=empty]> (<[this0:=empty]> (heap st))).
  assert (Hr0 : (<[this0:=empty]> (heap st)) !! r = None) by apply not_elem_of_dom, is_fresh.
  assert (Hp1 : h1 !! p = None) by apply not_elem_of_dom, is_fresh.
  assert (Hpr : p ≠ r).
  { intros E. subst h1. rewrite E, lookup_insert_eq in Hp1. done. }
  fold pending.
  assert (Hrun : ∀ s', heap s' = <[p := Proxy r]> h1 →
            releasedObjects s' = releasedObjects st →
            ctorObjectToProxy s' = al_set (ctorObjectToProxy st) r p →
            run_body p (constructor_body (classes c) args) s'
            = (body_completion (constructor_body (classes c) args),
               set_heap (<[r := Ordinary (constructed c args)]> (heap s')) s')).
  { intros s' H1 H2 H3.
    rewrite (run_body_wrapper p r _ s'
               {| obj_class := c; obj_props := []; obj_extensible := true |}); [done|..].
    - rewrite H1. apply lookup_insert_eq.
    - rewrite H1, lookup_insert_ne by done. subst h1. apply lookup_insert_eq.
    - done.
    - by rewrite H2.
    - rewrite H3. apply al_has_true. rewrite al_get_al_set_eq. by eexists. }
  destruct pending; simpl; rewrite Hrun by done; simpl;
    unfold construct_completion; by destruct (body_completion _) as [[]|e].
Qed.

(** ** The invariant of the registries *)

Lemma well_formed_initial : well_formed initial_state.
Proof.
  split; simpl; try done.
  - intros r [x Hx]. done.
  - unfold VALID_MODES. by left.
  - split; [lia|by left].
Qed.

(** Updates that touch neither the heap nor a registry. *)
Lemma well_formed_same (st st' : state) :
  heap st' = heap st → proxyToObject st' = proxyToObject st →
  ctorObjectToProxy st' = ctorObjectToProxy st →
  ctorProxyToObject st' = ctorProxyToObject st →
  releasedObjects st' = releasedObjects st → typeProperties st' = typeProperties st →
  mode st' = mode st → timers st' = timers st → checkTimerId st' = checkTimerId st →
  well_formed st → well_formed st'.
Proof.
  intros H1 H2 H3 H4 H5 H6 H7 H8 H9 [].
  split; rewrite ?H1, ?H2, ?H3, ?H4, ?H5, ?H6, ?H7, ?H8, ?H9; done.
Qed.

(** An ordinary object is updated, keeping its class and extensibility. *)
Lemma well_formed_update (st : state) (r : ref) (obj obj' : object) :
  heap st !! r = Some (Ordinary obj) →
  obj_class obj' = obj_class obj → obj_extensible obj' = obj_extensible obj →
  well_formed st → well_formed (set_heap (<[r := Ordinary obj']> (heap st)) st).
Proof.
  intros Hr Hc He [W1 W2 Wd W3 W4 W5 W6 W7 W8]. split; simpl; try done.
  - intros p t. rewrite lookup_insert. case_decide; [done|]. intros Hp.
    destruct (W1 p t Hp) as (H1 & obj0 & H2 & H3 & H4). split; [done|].
    rewrite lookup_insert. case_decide; [|by exists obj0].
    simplify_eq. exists obj'. by rewrite Hc, He.
  - intros p t Hp. apply W2 in Hp. rewrite lookup_insert. case_decide; [congruence|done].
  - intros p t Hp. apply W4 in Hp. rewrite lookup_insert. case_decide; [congruence|done].
  - intros x Hx. destruct (W5 x Hx) as [obj0 H0].
    rewrite lookup_insert. case_decide; eauto.
Qed.

(** A fresh ordinary object is allocated. *)
Lemma well_formed_allocate (st : state) (r : ref) (obj : object) :
  heap st !! r = None →
  well_formed st → well_formed (set_heap (<[r := Ordinary obj]> (heap st)) st).
Proof.
  intros Hr [W1 W2 Wd W3 W4 W5 W6 W7 W8]. split; simpl; try done.
  - intros p t. rewrite lookup_insert. case_decide; [done|]. intros Hp.
    destruct (W1 p t Hp) as (H1 & obj0 & H2 & H3 & H4). split; [done|].
    rewrite lookup_insert. case_decide; [congruence|by exists obj0].
  - intros p t Hp. apply W2 in Hp. rewrite lookup_insert. case_decide; [congruence|done].
  - intros p t Hp. apply W4 in Hp. rewrite lookup_insert. case_decide; [congruence|done].
  - intros x Hx. destruct (W5 x Hx) as [obj0 H0].
    rewrite lookup_insert. case_decide; [congruence|eauto].
Qed.

Lemma put_property_well_formed (r : ref) (k : key) (v : value) (st : state) :
  well_formed st → well_formed (put_property r k v st).2.
Proof.
  intros W. unfold put_property. munfold. simpl.
  destruct (heap st !! r) as [[obj|t]|] eqn:E; simpl; try done.
  destruct (al_has (obj_props obj) k || obj_extensible obj); simpl; [|done].
  by eapply well_formed_update.
Qed.

Lemma delete_property_well_formed (o : ref) (k : key) (st : state) :
  well_formed st → well_formed (delete_property o k st).2.
Proof.
  intros W. unfold delete_property. munfold. simpl.
  destruct (heap st !! o) as [[obj|t]|] eqn:E; simpl; try done.
  - destruct (obj_extensible obj || negb (al_has (obj_props obj) k)); simpl; [|done].
    by eapply well_formed_update.
  - by rewrite defendHandler_deleteProperty_eq.
Qed.

#[local] Instance keeps_well_formed_preorder : PreOrder keeps_well_formed.
Proof.
  split.
  - intros st H. exact H.
  - intros a b c Hab Hbc H. apply Hbc, Hab, H.
Qed.

Lemma assign_well_formed (o : ref) (k : key) (v : value) :
  advances keeps_well_formed (assign o k v).
Proof.
  apply assign_advances; first apply _.
  - intros r k' v' st W. by apply put_property_well_formed.
  - intros l st W. by apply (well_formed_same st).
Qed.

Lemma read_well_formed (o : ref) (k : key) : advances keeps_well_formed (read o k).
Proof.
  apply read_advances; first apply _. intros l st W. by apply (well_formed_same st).
Qed.

Lemma define_property_well_formed (o : ref) (k : key) (desc : value) :
  advances keeps_well_formed (define_property o k desc).
Proof.
  apply define_property_advances; first apply _.
  - intros r k' v' st W. by apply put_property_well_formed.
  - intros l st W. by apply (well_formed_same st).
Qed.

Lemma fresh_instance_None (c : classid) (st : state) :
  heap st !! fresh_instance c st = None ∧ fresh_instance c st ≠ fresh (dom (heap st)).
Proof.
  unfold fresh_instance.
  set (empty := Ordinary _). set (this0 := fresh (dom (heap st))).
  assert (H : (<[this0:=empty]> (heap st)) !! fresh (dom (<[this0:=empty]> (heap st))) = None)
    by apply not_elem_of_dom, is_fresh.
  rewrite lookup_insert in H. by case_decide.
Qed.

Lemma fresh_wrapper_None (c : classid) (st : state) :
  heap st !! fresh_wrapper c st = None
  ∧ fresh_wrapper c st ≠ fresh_instance c st
  ∧ fresh_wrapper c st ≠ fresh (dom (heap st)).
Proof.
  unfold fresh_wrapper. fold (fresh_instance c st).
  set (empty := Ordinary _). set (this0 := fresh (dom (heap st))).
  set (r := fresh_instance c st). set (h1 := <[r:=empty]> (<[this0:=empty]> (heap st))).
  assert (H : h1 !! fresh (dom h1) = None) by apply not_elem_of_dom, is_fresh.
  subst h1. rewrite !lookup_insert in H. by repeat case_decide.
Qed.

(** The state that [new] leaves for a wrapped instance keeps the invariant. *)
Lemma well_formed_wrapped (c : classid) (obj : object) (st : state) :
  extends_DefendedBase (classes c) = true →
  obj_class obj = c → obj_extensible obj = true →
  well_formed st →
  let empty := Ordinary {| obj_class := c; obj_props := []; obj_extensible := true |} in
  let r := fresh_instance c st in
  let p := fresh_wrapper c st in
  let pending := bool_decide (checkTimerId st = (-1)%Z) in
  well_formed
    {| mode := mode st; warningCallback := warningCallback st;
       ctorObjectToProxy := al_set (ctorObjectToProxy st) r p;
       ctorProxyToObject := al_set (ctorProxyToObject st) p r;
       proxyToObject := <[p := r]> (proxyToObject st);
       releasedObjects := releasedObjects st; typeProperties := typeProperties st;
       checkTimerId := if pending then (timers st + 1)%Z else checkTimerId st;
       heap := <[r := Ordinary obj]>
                 (<[p := Proxy r]> (<[r := empty]> (<[fresh (dom (heap st)) := empty]> (heap st))));
       callStack := callStack st;
       timers := if pending then (timers st + 1)%Z else timers st;
       reports := reports st |}.
Proof.
  intros Hext Hcls Hobj [W1 W2 Wd W3 W4 W5 W6 W7 W8] empty r p pending.
  destruct (fresh_instance_None c st) as [Hr Hr0].
  destruct (fresh_wrapper_None c st) as (Hp & Hpr & Hp0).
  fold r in Hr, Hr0, Hpr. fold p in Hp, Hpr, Hp0.
  pose proof (fresh_heap_None st) as H0.
  set (this0 := fresh (dom (heap st))) in *.
  set (heap' := <[r := Ordinary obj]> _).
  assert (Hold : ∀ x, is_Some (heap st !! x) → heap' !! x = heap st !! x).
  { intros x [y Hx]. subst heap'. rewrite !lookup_insert.
    repeat case_decide; congruence. }
  assert (Hnew_p : heap' !! p = Some (Proxy r)).
  { subst heap'. rewrite !lookup_insert. repeat case_decide; congruence. }
  assert (Hnew_r : heap' !! r = Some (Ordinary obj)).
  { subst heap'. by rewrite lookup_insert_eq. }
  assert (Hproxy : ∀ x t, heap' !! x = Some (Proxy t) →
                          (x = p ∧ t = r) ∨ (x ≠ p ∧ heap st !! x = Some (Proxy t))).
  { intros x t. subst heap'. rewrite !lookup_insert.
    repeat case_decide; intros Heq; simplify_eq; [by left|right].
    split; [congruence|done]. }
  assert (Hno_r : ∀ b, al_get (ctorProxyToObject st) b ≠ Some r).
  { intros b Hb. apply W4 in Hb. destruct (W1 _ _ Hb) as (_ & obj0 & Ht & _). congruence. }
  assert (Hno_p : ∀ a, al_get (ctorObjectToProxy st) a ≠ Some p).
  { intros a Ha. apply W3, W4 in Ha. congruence. }
  split; simpl.
  - intros x t Hx. destruct (Hproxy x t Hx) as [[-> ->]|[Hne Hx']].
    + rewrite lookup_insert_eq. split; [done|]. exists obj. by rewrite Hcls.
    + rewrite lookup_insert_ne by done.
      destruct (W1 x t Hx') as (H1 & obj0 & H2 & H3 & H4). split; [done|].
      exists obj0. rewrite Hold by by eexists. done.
  - intros x t. rewrite lookup_insert. case_decide.
    + intros [= <-]. by subst x.
    + intros Hx. apply W2 in Hx. rewrite Hold by by eexists. done.
  - assert (Hno : ∀ x, proxyToObject st !! x ≠ Some r).
    { intros x Hx. apply W2 in Hx. destruct (W1 _ _ Hx) as (_ & obj0 & Ht & _). congruence. }
    intros x x' t. rewrite !lookup_insert.
    repeat case_decide; intros Hx Hx'; simplify_eq; try done.
    + by destruct (Hno x').
    + by destruct (Hno x).
    + by eapply Wd.
  - intros a b. destruct (decide (r = a)) as [<-|Ha], (decide (p = b)) as [<-|Hb];
      rewrite ?al_get_al_set_eq, ?al_get_al_set_ne by done.
    + done.
    + split; [congruence|]. intros H. by destruct (Hno_r b).
    + split; [|congruence]. intros H. by destruct (Hno_p a).
    + apply W3.
  - intros b a. destruct (decide (p = b)) as [<-|Hb];
      rewrite ?al_get_al_set_eq, ?al_get_al_set_ne by done.
    + by intros [= <-].
    + intros H. apply W4 in H. rewrite Hold by by eexists. done.
  - intros x Hx. destruct (W5 x Hx) as [obj0 H1]. exists obj0.
    rewrite Hold by by eexists. done.
  - done.
  - done.
  - destruct W8 as [Ht Hid]. subst pending. case_bool_decide; [lia|].
    split; [done|]. destruct Hid; [done|by right].
Qed.

Lemma construct_well_formed (c : classid) (args : list value) (st : state) :
  well_formed st → well_formed (construct c args st).2.
Proof.
  intros W.
  destruct (extends_DefendedBase (classes c)) eqn:Hc;
    [destruct (decide (mode st = "defend")) as [Hm|Hm]|].
  - rewrite construct_wrapped; [|done..|].
    + simpl. by apply well_formed_wrapped.
    + apply eq_None_not_Some. intros Hr.
      destruct (wf_released _ W _ Hr) as [obj Hobj].
      destruct (fresh_instance_None c st) as [Hnone _]. congruence.
  - rewrite construct_unwrapped by by right. simpl.
    apply well_formed_allocate; [apply fresh_heap_None|done].
  - rewrite construct_unwrapped by by left. simpl.
    apply well_formed_allocate; [apply fresh_heap_None|done].
Qed.

Lemma verified_well_formed (c : classid) (o : value) (st : state) :
  well_formed st → well_formed (verified c o st).
Proof.
  intros W. unfold verified. destruct (typeProperties st !! c) as [existing|] eqn:E.
  - destruct (bool_decide _); [done|]. by apply (well_formed_same st).
  - destruct W as [W1 W2 Wd W3 W4 W5 W6 W7 W8]. split; simpl; try done.
    intros c' record. rewrite lookup_insert. case_decide; [|apply W6].
    intros [= <-]. apply property_set_spec.
Qed.

Lemma well_formed_clear_sessions (st : state) :
  well_formed st → well_formed (set_ctorObjectToProxy [] (set_ctorProxyToObject [] st)).
Proof. intros [W1 W2 Wd W3 W4 W5 W6 W7 W8]. split; simpl; done. Qed.

(** In mode "defend" the final step of [New] closes the session of the
    wrapper it is given, if it has one. *)
Lemma Defend_eq_defend (o : value) (st : state) :
  mode st = "defend" →
  Defend o st
  = if falsy o || negb (streq (typeof o) "object")
    then (Throw (TypeError "expected object"), st)
    else (Normal o,
          match o, Map_get (ctorProxyToObject st) o with
          | VObject proxy, Some realObject =>
              if instanceof_DefendedBase st o
              then set_ctorObjectToProxy (al_delete (ctorObjectToProxy st) realObject)
                     (set_ctorProxyToObject (al_delete (ctorProxyToObject st) proxy) st)
              else st
          | _, _ => st
          end).
Proof.
  intros Hm. unfold Defend. munfold. simpl.
  destruct (falsy o || negb (streq (typeof o) "object")); [done|]. simpl. rewrite Hm.
  destruct (instanceof_DefendedBase st o) eqn:Hd; simpl.
  - destruct o; simpl; try done. by destruct (al_get (ctorProxyToObject st) r).
  - destruct o; simpl; try done. by destruct (al_get (ctorProxyToObject st) r).
Qed.

Lemma well_formed_close_session (st : state) (p r : ref) :
  al_get (ctorProxyToObject st) p = Some r →
  well_formed st →
  well_formed (set_ctorObjectToProxy (al_delete (ctorObjectToProxy st) r)
                 (set_ctorProxyToObject (al_delete (ctorProxyToObject st) p) st)).
Proof.
  intros Hp [W1 W2 Wd W3 W4 W5 W6 W7 W8]. split; simpl; try done.
  - intros a b.
    destruct (decide (r = a)) as [<-|Ha], (decide (p = b)) as [<-|Hb];
      rewrite ?al_get_al_delete_eq, ?al_get_al_delete_ne by done; try done.
    + split; [done|]. intros H. apply W3 in H. apply W3 in Hp. congruence.
    + split; [|done]. intros H. apply W3 in H. congruence.
  - intros b a. destruct (decide (p = b)) as [<-|Hb];
      rewrite ?al_get_al_delete_eq, ?al_get_al_delete_ne by done; [done|apply W4].
Qed.

Lemma Defend_defend_well_formed (o : value) (st : state) :
  mode st = "defend" → well_formed st → well_formed (Defend o st).2.
Proof.
  intros Hm W. rewrite Defend_eq_defend by done.
  destruct (falsy o || negb (streq (typeof o) "object")); [done|]. simpl.
  destruct o as [| | | | | | |p| |]; try done. simpl.
  destruct (al_get (ctorProxyToObject st) p) as [r|] eqn:E; [|done].
  match goal with |- context [if ?b then _ else _] => destruct b end; [|done].
  by apply well_formed_close_session.
Qed.

Lemma New_well_formed (Type_ : value) (args : list value) (st : state) :
  well_formed st → well_formed (New Type_ args st).2.
Proof.
  intros W. destruct Type_ as [| | | | | | | | |c]; try done.
  rewrite New_eq.
  pose proof (construct_well_formed c args st W) as W1.
  pose proof (construct_mode c args st) as Hm1.
  destruct (decide (mode st = "seal")) as [Hseal|Hseal].
  - revert W1 Hm1. rewrite construct_unwrapped by (right; by rewrite Hseal).
    unfold construct_completion. simpl.
    destruct (body_completion _) as [[]|e]; simpl; intros W1 Hm1;
      [|by apply well_formed_clear_sessions].
    unfold Defend. munfold. simpl. repeat (rewrite Hseal; simpl).
    unfold Object_seal. munfold. simpl.
    rewrite lookup_insert_eq. simpl. unfold set_extensible. simpl.
    rewrite lookup_insert_eq. simpl. rewrite insert_insert_eq.
    apply (well_formed_allocate st); [apply fresh_heap_None|done].
  - destruct (construct c args st) as [[o|e] st1]; simpl in *;
      [|by apply well_formed_clear_sessions].
    unfold mbind, M_bind. destruct (decide (mode st = "defend")) as [Hm|Hm].
    + rewrite Hm1, Hm. simpl. rewrite VerifyObjectPropertiesConsistent_eq.
      pose proof (verified_well_formed c o st1 W1) as W2.
      destruct (verified_completion c o st1) as [[]|e]; [|done].
      apply Defend_defend_well_formed; [|done].
      unfold verified. destruct (typeProperties st1 !! c); [|by rewrite <- Hm].
      destruct (bool_decide _); simpl; congruence.
    + unfold streq. rewrite Hm1, bool_decide_eq_false_2 by done. simpl.
      unfold Defend. munfold. simpl.
      destruct (falsy o || negb (streq (typeof o) "object")); [done|]. simpl.
      unfold streq. rewrite Hm1.
      rewrite (bool_decide_eq_false_2 (mode st = "defend")) by done.
      rewrite (bool_decide_eq_false_2 (mode st = "seal")) by done. done.
Qed.

Lemma Release_well_formed (o : value) (st : state) :
  well_formed st → well_formed (Release o st).2.
Proof.
  intros W. rewrite Release_eq. simpl.
  destruct (WeakMap_get (proxyToObject st) o) as [r|] eqn:E; [|done].
  destruct o as [| | | | | | |p| |]; try done. simpl in E.
  destruct W as [W1 W2 Wd W3 W4 W5 W6 W7 W8]. split; simpl; try done.
  intros x. rewrite lookup_insert. case_decide; [|apply W5].
  intros _. subst x. apply W2 in E. destruct (W1 _ _ E) as (_ & obj & H & _). eauto.
Qed.

Lemma CheckDefendedObjectsUsedCorrectly_well_formed (st : state) :
  well_formed st → well_formed (CheckDefendedObjectsUsedCorrectly st).2.
Proof.
  intros W.
  assert (W0 : well_formed (set_checkTimerId (-1) st)).
  { destruct W as [W1 W2 Wd W3 W4 W5 W6 W7 [W8 W9]]. split; simpl; try done.
    split; [done|by left]. }
  unfold CheckDefendedObjectsUsedCorrectly. munfold. simpl.
  destruct (bool_decide _ || bool_decide _); simpl; [|done].
  rewrite logDefendedObjectWarning_eq.
  assert (W1 : well_formed (add_report (missing_New_message
            (join "," (Set_of_list ((λ r, getName_in (set_checkTimerId (-1) st) (VObject r))
                                    <$> al_keys (ctorObjectToProxy st)))))
            (set_checkTimerId (-1) st))) by by apply (well_formed_same (set_checkTimerId (-1) st)).
  destruct (reported _ _ _) as [[]|e]; simpl; [|done].
  by apply well_formed_clear_sessions in W1.
Qed.

Lemma step_well_formed (o : op) (stack : string) (st : state) :
  well_formed st → well_formed (step o stack st).2.
Proof.
  intros W.
  assert (W0 : well_formed (set_callStack stack st)) by by apply (well_formed_same st).
  unfold step. munfold. simpl. revert W0. generalize (set_callStack stack st).
  clear W st. intros st W.
  destruct o as [r k|r k v|r k|r k desc|c args|Type_ args|v|v|m|f|]; simpl; munfold.
  - pose proof (read_well_formed r k st W). by destruct (read r k st) as [[]].
  - pose proof (assign_well_formed r k v st W). by destruct (assign r k v st) as [[]].
  - pose proof (delete_property_well_formed r k st W).
    by destruct (delete_property r k st) as [[]].
  - pose proof (define_property_well_formed r k desc st W).
    by destruct (define_property r k desc st) as [[]].
  - by apply construct_well_formed.
  - by apply New_well_formed.
  - pose proof (Release_well_formed v st W). by destruct (Release v st) as [[]].
  - rewrite WasReleased_eq. done.
  - unfold SetMode. munfold. destruct m as [| | | | |s| | | |]; try done.
    case_bool_decide; simpl; [|done].
    destruct W as [W1 W2 Wd W3 W4 W5 W6 W7 W8]. split; simpl; done.
  - unfold SetWarningCallback. munfold.
    destruct (negb (streq (typeof f) "function")); simpl; [done|].
    by apply (well_formed_same st).
  - destruct (negb (bool_decide (checkTimerId st = (-1)%Z))); simpl; [|done].
    pose proof (CheckDefendedObjectsUsedCorrectly_well_formed st W).
    by destruct (CheckDefendedObjectsUsedCorrectly st) as [[]].
Qed.

Lemma run_well_formed (ops : list (op * string)) (st : state) :
  well_formed st → well_formed (run ops st).
Proof.
  revert st. induction ops as [|[o stack] ops IH]; intros st W; simpl; [done|].
  by apply IH, step_well_formed.
Qed.

(** X10.  Whatever the client does with the exported functions and the
    objects it holds, starting from a freshly loaded module, the registries
    stay well formed: every wrapper is tracked and wraps an extensible
    instance of a class that extends [DefendedBase], no two wrappers share
    an instance, the session maps mirror each other, only instances are
    released, shape records are sets, the mode is a valid one and the timer
    id is [-1] or a handed out one. *)
Theorem reachable_well_formed (ops : list (op * string)) :
  well_formed (run ops initial_state).
Proof. apply run_well_formed, well_formed_initial. Qed.

(** ** [New], mode by mode *)

Lemma construct_opened (c : classid) (args : list value) (st : state) :
  extends_DefendedBase (classes c) = true →
  mode st = "defend" →
  releasedObjects st !! fresh_instance c st = None →
  construct c args st
  = (construct_completion c args (VObject (fresh_wrapper c st)), opened c args st).
Proof. apply construct_wrapped. Qed.

Lemma opened_heap (c : classid) (args : list value) (st : state) :
  heap (opened c args st) !! fresh_wrapper c st = Some (Proxy (fresh_instance c st))
  ∧ heap (opened c args st) !! fresh_instance c st = Some (Ordinary (constructed c args)).
Proof.
  destruct (fresh_wrapper_None c st) as (_ & Hpr & _).
  unfold opened. simpl. split.
  - rewrite lookup_insert_ne by done. apply lookup_insert_eq.
  - apply lookup_insert_eq.
Qed.

(** [New] of a class that extends [DefendedBase], in mode "defend". *)
Lemma New_wrapped (c : classid) (args : list value) (st : state) :
  extends_DefendedBase (classes c) = true →
  mode st = "defend" →
  releasedObjects st !! fresh_instance c st = None →
  let p := fresh_wrapper c st in
  let r := fresh_instance c st in
  let st1 := opened c args st in
  New (VFunction c) args st
  = match body_completion (constructor_body (classes c) args) with
    | Throw e => (Throw e, set_ctorObjectToProxy [] (set_ctorProxyToObject [] st1))
    | Normal _ =>
        match verified_completion c (VObject p) st1 with
        | Throw e => (Throw e, verified c (VObject p) st1)
        | Normal _ => (Normal (VObject p), closed p r (verified c (VObject p) st1))
        end
    end.
Proof.
  intros Hc Hm Hr p r st1. rewrite New_eq, construct_opened by done.
  unfold construct_completion. fold p st1.
  destruct (body_completion _) as [[]|e]; [|done].
  change (mode st1) with (mode st). rewrite Hm. simpl. unfold mbind, M_bind.
  rewrite VerifyObjectPropertiesConsistent_eq.
  destruct (verified_completion c (VObject p) st1) as [[]|e]; [|done].
  set (st2 := verified c (VObject p) st1).
  assert (H2 : mode st2 = "defend" ∧ heap st2 = heap st1
               ∧ ctorProxyToObject st2 = ctorProxyToObject st1).
  { subst st2. unfold verified. destruct (typeProperties st1 !! c); [|done].
    by destruct (bool_decide _). }
  destruct H2 as (Hm2 & Hh2 & Hp2).
  destruct (opened_heap c args st) as [Hp Hr1]. fold p r st1 in Hp, Hr1.
  rewrite Defend_eq_defend by done. simpl.
  rewrite Hp2. change (ctorProxyToObject st1) with (al_set (ctorProxyToObject st) p r).
  rewrite al_get_al_set_eq. rewrite Hh2, Hp, Hr1. simpl. rewrite Hc.
  unfold closed. by rewrite Hp2.
Qed.

(** [New] of a class that gets no wrapper: the class does not extend
    [DefendedBase], or the mode is not "defend". *)
Lemma New_unwrapped (c : classid) (args : list value) (st : state) :
  extends_DefendedBase (classes c) = false ∨ mode st ≠ "defend" →
  let r := fresh (dom (heap st)) in
  let st1 := set_heap (<[r := Ordinary (constructed c args)]> (heap st)) st in
  New (VFunction c) args st
  = match body_completion (constructor_body (classes c) args) with
    | Throw e => (Throw e, set_ctorObjectToProxy [] (set_ctorProxyToObject [] st1))
    | Normal _ =>
        if streq (mode st) "defend" then
          match verified_completion c (VObject r) st1 with
          | Throw e => (Throw e, verified c (VObject r) st1)
          | Normal _ => (Normal (VObject r), verified c (VObject r) st1)
          end
        else if streq (mode st) "seal" then
          (Normal (VObject r),
           set_heap (<[r := Ordinary {| obj_class := c;
                                        obj_props := obj_props (constructed c args);
                                        obj_extensible := false |}]> (heap st)) st)
        else (Normal (VObject r), st1)
    end.
Proof.
  intros H r st1. rewrite New_eq, construct_unwrapped by done.
  unfold construct_completion. fold r st1.
  destruct (body_completion _) as [[]|e]; [|done].
  change (mode st1) with (mode st). unfold mbind, M_bind.
  destruct (streq (mode st) "defend") eqn:Hm; simpl.
  - apply bool_decide_eq_true in Hm. destruct H as [Hc|H]; [|done].
    rewrite VerifyObjectPropertiesConsistent_eq.
    destruct (verified_completion c (VObject r) st1) as [[]|e]; [|done].
    set (st2 := verified c (VObject r) st1).
    assert (H2 : mode st2 = "defend" ∧ heap st2 = heap st1).
    { subst st2. unfold verified. destruct (typeProperties st1 !! c); [|done].
      by destruct (bool_decide _). }
    destruct H2 as [Hm2 Hh2].
    apply (Defend_plain st2 r (constructed c args)); [done| |done].
    rewrite Hh2. subst st1. simpl. apply lookup_insert_eq.
  - unfold Defend. munfold. simpl. rewrite Hm. simpl.
    destruct (streq (mode st) "seal"); [|done].
    unfold Object_seal. munfold. simpl. rewrite lookup_insert_eq. simpl.
    unfold set_extensible. simpl. rewrite lookup_insert_eq. simpl.
    by rewrite insert_insert_eq.
Qed.

(** X11.  In mode "off", [New] is [new]: it allocates the one ordinary
    object, runs the constructor on it, and completes as the constructor
    does; no wrapper is made, no registry is touched and nothing is
    reported.  (After a constructor that throws, [New] also clears the
    session maps.) *)
Theorem New_mode_off (st : state) (c : classid) (args : list value) :
  mode st = "off" →
  let r := fresh (dom (heap st)) in
  let st1 := set_heap (<[r := Ordinary (constructed c args)]> (heap st)) st in
  construct c args st = (construct_completion c args (VObject r), st1)
  ∧ New (VFunction c) args st
    = (construct_completion c args (VObject r),
       match body_completion (constructor_body (classes c) args) with
       | Normal _ => st1
       | Throw _ => set_ctorObjectToProxy [] (set_ctorProxyToObject [] st1)
       end).
Proof.
  intros Hm r st1. split.
  - apply construct_unwrapped. right. by rewrite Hm.
  - rewrite New_unwrapped by (right; by rewrite Hm). fold r st1.
    unfold construct_completion. rewrite Hm. simpl.
    by destruct (body_completion _) as [[]|e].
Qed.

(** X12.  In mode "seal", [New] makes no wrapper and keeps no record: it
    returns the ordinary object that the constructor built, sealed.  From
    then on an assignment to one of its own properties succeeds, whatever
    the type of the value, and an assignment that would add a property is
    refused by the object with a TypeError; neither is reported. *)
Theorem New_mode_seal (st : state) (c : classid) (args : list value) :
  mode st = "seal" →
  body_completion (constructor_body (classes c) args) = Normal tt →
  let r := fresh (dom (heap st)) in
  let sealed props := Ordinary {| obj_class := c; obj_props := props;
                                  obj_extensible := false |} in
  let st' := set_heap (<[r := sealed (obj_props (constructed c args))]> (heap st)) st in
  New (VFunction c) args st = (Normal (VObject r), st')
  ∧ heap st !! r = None
  ∧ (∀ k v stack, al_has (obj_props (constructed c args)) k = true →
       step (OpSet r k v) stack st'
       = (Normal v,
          set_heap (<[r := sealed (al_set (obj_props (constructed c args)) k v)]> (heap st))
            (set_callStack stack st)))
  ∧ (∀ k v stack, al_has (obj_props (constructed c args)) k = false →
       ∃ msg, step (OpSet r k v) stack st'
              = (Throw (TypeError msg), set_callStack stack st')).
Proof.
  intros Hm Hbody r sealed st'. split; [|split; [|split]].
  - rewrite New_unwrapped by (right; by rewrite Hm). rewrite Hbody, Hm. done.
  - apply fresh_heap_None.
  - intros k v stack Hk. unfold step, perform, assign, put_property. munfold. simpl.
    repeat (rewrite lookup_insert_eq; simpl). simpl in Hk. rewrite Hk. simpl.
    by rewrite insert_insert_eq.
  - intros k v stack Hk. unfold step, perform, assign, put_property. munfold. simpl.
    repeat (rewrite lookup_insert_eq; simpl). simpl in Hk. rewrite Hk. simpl.
    by eexists.
Qed.

(** X13.  In mode "defend", when [New] of a class that extends
    [DefendedBase] returns, it returns a fresh wrapper over a fresh instance
    that holds what the constructor assigned; the wrapper is tracked, its
    construction session is closed, and the instance is not released.  The
    first instance of a class is created without any report. *)
Theorem New_defended_wrapper (st st' : state) (c : classid) (args : list value) (o : value) :
  mode st = "defend" →
  extends_DefendedBase (classes c) = true →
  releasedObjects st !! fresh_instance c st = None →
  New (VFunction c) args st = (Normal o, st') →
  let p := fresh_wrapper c st in
  let r := fresh_instance c st in
  o = VObject p
  ∧ heap st !! p = None ∧ heap st !! r = None
  ∧ heap st' !! p = Some (Proxy r)
  ∧ heap st' !! r = Some (Ordinary (constructed c args))
  ∧ proxyToObject st' !! p = Some r
  ∧ al_get (ctorProxyToObject st') p = None
  ∧ al_get (ctorObjectToProxy st') r = None
  ∧ releasedObjects st' !! r = None
  ∧ (typeProperties st !! c = None →
     reports st' = reports st
     ∧ typeProperties st' = <[c := property_set st' o]> (typeProperties st)).
Proof.
  intros Hm Hc Hr HNew p r. rewrite New_wrapped in HNew by done. fold p r in HNew.
  destruct (body_completion _) as [[]|e]; [|done].
  set (st1 := opened c args st) in *.
  assert (H2 : heap (verified c (VObject p) st1) = heap st1
               ∧ proxyToObject (verified c (VObject p) st1) = proxyToObject st1
               ∧ releasedObjects (verified c (VObject p) st1) = releasedObjects st1).
  { unfold verified. destruct (typeProperties st1 !! c); [|done].
    by destruct (bool_decide _). }
  destruct H2 as (Hh & Hpto & Hrel).
  destruct (verified_completion c (VObject p) st1) as [[]|e] eqn:Hv; [|done].
  injection HNew as <- <-.
  destruct (opened_heap c args st) as [Hp1 Hr1].
  destruct (fresh_instance_None c st) as [Hr0 _].
  destruct (fresh_wrapper_None c st) as (Hp0 & _ & _).
  split; [done|]. split; [done|]. split; [done|].
  unfold closed. simpl. rewrite Hh, Hpto, Hrel.
  split; [done|]. split; [done|].
  split; [apply lookup_insert_eq|].
  split; [apply al_get_al_delete_eq|]. split; [apply al_get_al_delete_eq|].
  split; [done|].
  intros Hnone. unfold verified. change (typeProperties st1) with (typeProperties st).
  rewrite Hnone. simpl. split; [done|]. by f_equal.
Qed.

(** X14.  [New] closes the session of the object it returns, and no other:
    when it returns that object, every other session that the constructor
    left open is still open, no session was added, and in mode "defend"
    the session of an instance of a class that extends [DefendedBase] is
    gone from both maps. *)
Theorem New_restores_sessions (st st1 st' : state) (c : classid) (args : list value)
    (o o' : value) :
  construct c args st = (Normal o, st1) →
  New (VFunction c) args st = (Normal o', st') →
  o' = o
  ∧ (∀ p r, al_get (ctorProxyToObject st1) p = Some r → o ≠ VObject p →
       al_get (ctorProxyToObject st') p = Some r)
  ∧ (∀ r p, al_get (ctorObjectToProxy st1) r = Some p →
       Map_get (ctorProxyToObject st1) o ≠ Some r →
       al_get (ctorObjectToProxy st') r = Some p)
  ∧ (∀ p r, al_get (ctorProxyToObject st') p = Some r →
       al_get (ctorProxyToObject st1) p = Some r)
  ∧ (∀ r p, al_get (ctorObjectToProxy st') r = Some p →
       al_get (ctorObjectToProxy st1) r = Some p)
  ∧ (∀ p r, o = VObject p → mode st1 = "defend" → instanceof_DefendedBase st1 o = true →
       al_get (ctorProxyToObject st1) p = Some r →
       al_get (ctorProxyToObject st') p = None ∧ al_get (ctorObjectToProxy st') r = None).
Proof.
  intros Hnew HNew. rewrite New_eq, Hnew in HNew.
  destruct (construct_object _ _ _ _ _ Hnew) as [q ->].
  assert (Hcheck : ∃ s2, (when (streq (mode st1) "defend")
                            (VerifyObjectPropertiesConsistent c (VObject q)) st1).2 = s2
                         ∧ heap s2 = heap st1 ∧ mode s2 = mode st1
                         ∧ ctorProxyToObject s2 = ctorProxyToObject st1
                         ∧ ctorObjectToProxy s2 = ctorObjectToProxy st1).
  { eexists. split; [done|]. destruct (streq (mode st1) "defend"); simpl; [|done].
    rewrite VerifyObjectPropertiesConsistent_eq. simpl. unfold verified.
    destruct (typeProperties st1 !! c); [|done]. by destruct (bool_decide _). }
  destruct Hcheck as (s2 & Hs2 & Hh & Hm & Hpo & Hop).
  unfold mbind, M_bind in HNew.
  destruct (when _ _ st1) as [[[]|e] s2'] eqn:E; [|done]. simpl in Hs2. subst s2'.
  assert (Hi : instanceof_DefendedBase s2 (VObject q) = instanceof_DefendedBase st1 (VObject q)).
  { unfold instanceof_DefendedBase. by rewrite Hh. }
  assert (HDefend : ∀ s, Defend (VObject q) s
            = if streq (mode s) "defend" && instanceof_DefendedBase s (VObject q)
              then match al_get (ctorProxyToObject s) q with
                   | Some r => (Normal (VObject q), closed q r s)
                   | None => (Normal (VObject q), s)
                   end
              else if streq (mode s) "seal" then Object_seal (VObject q) s
                   else (Normal (VObject q), s)).
  { intros s. unfold Defend, closed. munfold. simpl.
    destruct (streq (mode s) "defend" && _);
      [by destruct (al_get (ctorProxyToObject s) q)|by destruct (streq (mode s) "seal")]. }
  rewrite HDefend, Hm, Hi, Hpo in HNew.
  destruct (streq (mode st1) "defend" && instanceof_DefendedBase st1 (VObject q)) eqn:Hclose.
  - apply andb_true_iff in Hclose as [Hmode Hinst]. apply bool_decide_eq_true in Hmode.
    destruct (al_get (ctorProxyToObject st1) q) as [r0|] eqn:Hentry.
    + injection HNew as <- <-. simpl. rewrite Hpo, Hop. split; [done|].
      split. { intros p r Hp Hne. rewrite al_get_al_delete_ne; [done|congruence]. }
      split. { intros r p Hr Hne. rewrite al_get_al_delete_ne; [done|congruence]. }
      split. { intros p r. destruct (decide (q = p)) as [->|Hne].
               - by rewrite al_get_al_delete_eq.
               - by rewrite al_get_al_delete_ne. }
      split. { intros r p. destruct (decide (r0 = r)) as [->|Hne].
               - by rewrite al_get_al_delete_eq.
               - by rewrite al_get_al_delete_ne. }
      intros p r [= <-] _ _ Hp. rewrite Hentry in Hp. injection Hp as <-.
      by rewrite !al_get_al_delete_eq.
    + injection HNew as <- <-. rewrite Hpo, Hop. split; [done|].
      split; [done|]. split; [done|]. split; [done|]. split; [done|].
      intros p r [= <-] _ _ Hp. congruence.
  - assert (Hseal : ∀ s s' v, Object_seal (VObject q) s = (Normal v, s') →
              v = VObject q ∧ ctorProxyToObject s' = ctorProxyToObject s
              ∧ ctorObjectToProxy s' = ctorObjectToProxy s).
    { intros s s' v Hv.
      pose proof (Object_seal_advances (unchanged ctorProxyToObject)
                    ltac:(intros; by apply set_extensible_unchanged) (VObject q) s) as H1.
      pose proof (Object_seal_advances (unchanged ctorObjectToProxy)
                    ltac:(intros; by apply set_extensible_unchanged) (VObject q) s) as H2.
      rewrite Hv in H1, H2. split; [|by split].
      unfold Object_seal in Hv. munfold. simpl in Hv.
      destruct (heap s !! q) as [[obj|t]|]; simpl in Hv; try by injection Hv as <- _.
      destruct (heap (set_extensible t false s) !! t) as [[obj|t']|];
        try by injection Hv as <- _.
      destruct (obj_props obj) as [|[k w] l]; [by injection Hv as <- _|].
      by rewrite defendHandler_defineProperty_eq in Hv. }
    assert (Hrest : o' = VObject q ∧ ctorProxyToObject st' = ctorProxyToObject st1
                    ∧ ctorObjectToProxy st' = ctorObjectToProxy st1).
    { destruct (streq (mode st1) "seal").
      - apply Hseal in HNew as (-> & -> & ->). by rewrite Hpo, Hop.
      - injection HNew as <- <-. by rewrite Hpo, Hop. }
    destruct Hrest as (-> & -> & ->). split; [done|].
    split; [done|]. split; [done|]. split; [done|]. split; [done|].
    intros p r [= <-] Hmode Hinst _. unfold streq in Hclose.
    by rewrite (bool_decide_eq_true_2 _ Hmode), Hinst in Hclose.
Qed.

(** X15.  [New] runs [new], the shape check and [Defend].  With a sink
    that returns normally, and for a class whose [new] evaluates to the
    object under construction (its constructor returns nothing of its own,
    as the constructors of [stmt]), [New] completes exactly as [new] does,
    with that object or with the error that the constructor throws.  The
    failure that [New] can add is the guard of [Defend], which in every
    mode throws a TypeError for a value that is not an object, a function
    for one, and changes nothing.  Given anything that is not a function,
    [New] throws a TypeError and changes nothing. *)
Theorem New_completes_as_new (st : state) (Type_ : value) (args : list value) :
  (∀ c, Type_ = VFunction c → sink_returns st →
        (New Type_ args st).1 = (construct c args st).1)
  ∧ (∀ o s, falsy o = true ∨ typeof o ≠ "object" →
       Defend o s = (Throw (TypeError "expected object"), s))
  ∧ ((∀ c, Type_ ≠ VFunction c) →
     New Type_ args st = (Throw (TypeError "expected function"), st)).
Proof.
  split; [|split].
  - intros c -> Hs.
    destruct (extends_DefendedBase (classes c)) eqn:Hc;
      [destruct (decide (mode st = "defend")) as [Hm|Hm]|].
    + rewrite New_eq.
      pose proof (construct_mode c args st) as Hm1.
      pose proof (construct_unchanged warningCallback
                    ltac:(done) ltac:(done) ltac:(done) ltac:(done) ltac:(done)
                    ltac:(done) ltac:(done) c args st) as Hw.
      destruct (construct c args st) as [[o|e] st1] eqn:E; [|done]. simpl in *.
      destruct (construct_object _ _ _ _ _ E) as [r ->].
      unfold mbind, M_bind. rewrite Hm1, Hm. simpl.
      rewrite VerifyObjectPropertiesConsistent_eq.
      assert (Hs1 : sink_returns st1) by by eapply sink_returns_ext.
      assert (Hv : verified_completion c (VObject r) st1 = Normal tt).
      { unfold verified_completion. destruct (typeProperties st1 !! c); [|done].
        destruct (bool_decide _); [done|]. by apply reported_returns. }
      rewrite Hv. apply Defend_in_defend_mode.
      unfold verified. destruct (typeProperties st1 !! c); [|by rewrite <- Hm].
      destruct (bool_decide _); simpl; congruence.
    + rewrite New_unwrapped, construct_unwrapped by by right.
      unfold construct_completion.
      destruct (body_completion _) as [[]|e]; [|done].
      unfold streq. rewrite (bool_decide_eq_false_2 (mode st = "defend")) by done.
      by destruct (bool_decide (mode st = "seal")).
    + rewrite New_unwrapped, construct_unwrapped by by left.
      unfold construct_completion.
      destruct (body_completion _) as [[]|e]; [|done].
      destruct (streq (mode st) "defend").
      * assert (Hv : ∀ s, warningCallback s = warningCallback st →
                          ∀ v, verified_completion c v s = Normal tt).
        { intros s Hw v. unfold verified_completion.
          destruct (typeProperties s !! c); [|done].
          destruct (bool_decide _); [done|]. apply reported_returns.
          by apply (sink_returns_ext st). }
        by rewrite Hv.
      * by destruct (streq (mode st) "seal").
  - intros o s Ho. unfold Defend.
    destruct Ho as [-> | Ho]; [done|].
    unfold streq. rewrite (bool_decide_eq_false_2 _ Ho). by rewrite orb_true_r.
  - intros H. destruct Type_; try done. by destruct (H c).
Qed.

(** ** A bare [new] *)

(** X17.  In mode "defend", a bare [new] of a class that extends
    [DefendedBase] evaluates to a wrapper whose construction session stays
    open, also when the constructor throws: the wrapper is tracked, nothing
    is reported and no shape is recorded.  The deferred check is requested
    from the host exactly when none is pending, so one is pending
    afterwards. *)
Theorem bare_new_opens_session (st : state) (c : classid) (args : list value) :
  mode st = "defend" →
  extends_DefendedBase (classes c) = true →
  releasedObjects st !! fresh_instance c st = None →
  (0 ≤ timers st)%Z →
  let p := fresh_wrapper c st in
  let r := fresh_instance c st in
  let st1 := (construct c args st).2 in
  (construct c args st).1 = construct_completion c args (VObject p)
  ∧ heap st1 !! p = Some (Proxy r)
  ∧ heap st1 !! r = Some (Ordinary (constructed c args))
  ∧ al_get (ctorObjectToProxy st1) r = Some p
  ∧ al_get (ctorProxyToObject st1) p = Some r
  ∧ proxyToObject st1 !! p = Some r
  ∧ reports st1 = reports st
  ∧ typeProperties st1 = typeProperties st
  ∧ checkTimerId st1 ≠ (-1)%Z
  ∧ (if bool_decide (checkTimerId st = (-1)%Z)
     then checkTimerId st1 = (timers st + 1)%Z ∧ timers st1 = (timers st + 1)%Z
     else checkTimerId st1 = checkTimerId st ∧ timers st1 = timers st).
Proof.
  intros Hm Hc Hr Ht p r st1. subst st1. rewrite construct_opened by done. simpl.
  destruct (opened_heap c args st) as [Hp1 Hr1].
  split; [done|]. split; [done|]. split; [done|].
  split; [apply al_get_al_set_eq|]. split; [apply al_get_al_set_eq|].
  split; [apply lookup_insert_eq|]. split; [done|]. split; [done|].
  case_bool_decide; [|done]. split; [lia|done].
Qed.

(** ** [Defend] twice *)

Lemma set_extensible_twice (r : ref) (b : bool) (st : state) :
  set_extensible r b (set_extensible r b st) = set_extensible r b st.
Proof.
  unfold set_extensible. destruct (heap st !! r) as [[obj|t]|] eqn:E; simpl; rewrite ?E; try done.
  rewrite lookup_insert_eq. simpl. by rewrite insert_insert_eq.
Qed.

Lemma set_extensible_lookup (r : ref) (b : bool) (st : state) (x : ref) :
  heap (set_extensible r b st) !! x
  = match heap st !! x with
    | Some (Ordinary obj) =>
        Some (Ordinary {| obj_class := obj_class obj; obj_props := obj_props obj;
                          obj_extensible := if decide (r = x) then b else obj_extensible obj |})
    | c => c
    end.
Proof.
  unfold set_extensible. destruct (heap st !! r) as [[obj|t]|] eqn:E; simpl.
  - rewrite lookup_insert. case_decide; [subst x; by rewrite E|].
    destruct (heap st !! x) as [[[]|]|]; done.
  - destruct (decide (r = x)) as [<-|]; [by rewrite E|].
    destruct (heap st !! x) as [[[]|]|]; done.
  - destruct (decide (r = x)) as [<-|]; [by rewrite E|].
    destruct (heap st !! x) as [[[]|]|]; done.
Qed.

Lemma mode_set_extensible (r : ref) (b : bool) (st : state) :
  mode (set_extensible r b st) = mode st.
Proof. unfold set_extensible. by destruct (heap st !! r) as [[obj|t]|]. Qed.

Lemma instanceof_set_extensible (r : ref) (b : bool) (st : state) (o : value) :
  instanceof_DefendedBase (set_extensible r b st) o = instanceof_DefendedBase st o.
Proof.
  unfold instanceof_DefendedBase. destruct o as [| | | | | | |x| |]; try done.
  rewrite set_extensible_lookup. destruct (heap st !! x) as [[obj|t]|]; try done.
  rewrite set_extensible_lookup. by destruct (heap st !! t) as [[obj|t']|].
Qed.

#[local] Arguments instanceof_DefendedBase : simpl never.

(** X18.  [Defend] passes an object that it has already returned straight
    through: a second call returns the same object and changes nothing, in
    every mode. *)
Theorem Defend_idempotent (o o' : value) (st st' : state) :
  Defend o st = (Normal o', st') →
  o' = o ∧ Defend o st' = (Normal o, st').
Proof.
  unfold Defend. munfold.
  destruct (falsy o || negb (streq (typeof o) "object")) eqn:Hobj; [done|]. simpl.
  destruct (streq (mode st) "defend" && instanceof_DefendedBase st o) eqn:Hd.
  - destruct (Map_get (ctorProxyToObject st) o) as [realObject|] eqn:Hentry.
    + destruct o as [| | | | | | |proxy| |]; try done.
      intros [= <- <-]. split; [done|]. simpl.
      change (instanceof_DefendedBase (set_ctorObjectToProxy _ _) (VObject proxy))
        with (instanceof_DefendedBase st (VObject proxy)).
      rewrite Hd. simpl. by rewrite al_get_al_delete_eq.
    + intros [= <- <-]. split; [done|]. by rewrite Hd, Hentry.
  - destruct (streq (mode st) "seal") eqn:Hseal.
    2:{ intros [= <- <-]. split; [done|]. by rewrite Hd, Hseal. }
    unfold Object_seal. munfold.
    assert (Ho : (∃ r, o = VObject r) ∨ (∃ r, o = VArray r)).
    { destruct o; simpl in Hobj; rewrite ?orb_true_r in Hobj; try done; eauto. }
    destruct Ho as [[r ->]|[r ->]].
    2:{ intros [= <- <-]. split; [done|]. by rewrite Hd, Hseal. }
    destruct (heap st !! r) as [[obj|t]|] eqn:Hr; simpl.
    + intros [= <- <-]. split; [done|].
      rewrite mode_set_extensible, instanceof_set_extensible, Hd, Hseal, set_extensible_lookup, Hr. simpl.
      by rewrite set_extensible_twice.
    + destruct (heap (set_extensible t false st) !! t) as [[obj|t']|] eqn:Ht; simpl.
      * destruct (obj_props obj) as [|[k v] props] eqn:Hprops; simpl.
        -- intros [= <- <-]. split; [done|].
           rewrite mode_set_extensible, instanceof_set_extensible, Hd, Hseal.
           assert (Hne : t ≠ r).
           { intros ->. rewrite set_extensible_lookup, Hr in Ht. done. }
           rewrite set_extensible_lookup, Hr. simpl.
           rewrite set_extensible_twice, Ht. simpl. by rewrite Hprops.
        -- rewrite defendHandler_defineProperty_eq. done.
      * intros [= <- <-]. split; [done|].
        rewrite mode_set_extensible, instanceof_set_extensible, Hd, Hseal, set_extensible_lookup, Hr. simpl.
        by rewrite set_extensible_twice, Ht.
      * intros [= <- <-]. split; [done|].
        rewrite mode_set_extensible, instanceof_set_extensible, Hd, Hseal, set_extensible_lookup, Hr. simpl.
        by rewrite set_extensible_twice, Ht.
    + intros [= <- <-]. split; [done|]. by rewrite Hd, Hseal, Hr.
Qed.

(** ** What does not depend on the mode *)

Lemma ignores_mode_ret {A} (a : A) : ignores_mode (mret a).
Proof. by intros md st. Qed.

Lemma ignores_mode_throw {A} (e : exn) : ignores_mode (throw e : M A).
Proof. by intros md st. Qed.

Lemma ignores_mode_gets {A} (f : state → A) :
  (∀ md st, f (set_mode md st) = f st) → ignores_mode (gets f).
Proof. intros Hf md st. unfold gets. simpl. by rewrite Hf. Qed.

Lemma ignores_mode_modify (f : state → state) :
  (∀ md st, f (set_mode md st) = set_mode md (f st)) → ignores_mode (modify f).
Proof. intros Hf md st. unfold modify. simpl. by rewrite Hf. Qed.

Lemma ignores_mode_bind {A B} (m : M A) (f : A → M B) :
  ignores_mode m → (∀ a, ignores_mode (f a)) → ignores_mode (m ≫= f).
Proof.
  intros Hm Hf md st. unfold mbind, M_bind. rewrite Hm.
  destruct (m st) as [[a|e] st1]; simpl; [apply Hf|done].
Qed.

Lemma ignores_mode_when (c : bool) (m : M unit) : ignores_mode m → ignores_mode (when c m).
Proof. intros H. destruct c; [exact H|apply ignores_mode_ret]. Qed.

Create HintDb mode_free discriminated.

Ltac mode_free_step :=
  match goal with
  | |- ∀ _, _ => intro
  | |- ignores_mode (mret _) => apply ignores_mode_ret
  | |- ignores_mode (throw _) => apply ignores_mode_throw
  | |- ignores_mode (gets _) => apply ignores_mode_gets; done
  | |- ignores_mode (modify _) => apply ignores_mode_modify; done
  | |- ignores_mode (when _ _) => apply ignores_mode_when
  | |- ignores_mode (mbind _ _) => apply ignores_mode_bind
  | |- ignores_mode (match ?x with _ => _ end) => destruct x
  | |- _ => solve [eauto 2 with mode_free]
  end.

Ltac mode_free := repeat mode_free_step.

Lemma logDefendedObjectWarning_mode_free (msg : string) :
  ignores_mode (logDefendedObjectWarning msg).
Proof. unfold logDefendedObjectWarning, GetCallStack. mode_free. Qed.
#[local] Hint Resolve logDefendedObjectWarning_mode_free : mode_free.

Lemma put_property_mode_free (r : ref) (k : key) (v : value) :
  ignores_mode (put_property r k v).
Proof. unfold put_property. mode_free. Qed.
#[local] Hint Resolve put_property_mode_free : mode_free.

Lemma defendHandler_get_mode_free (target : ref) (k : key) :
  ignores_mode (defendHandler_get target k).
Proof.
  unfold defendHandler_get, has_property, get_property, getName, template_key. mode_free.
Qed.

#[local] Hint Resolve defendHandler_get_mode_free : mode_free.

Lemma template_value_mode_free (v : value) : ignores_mode (template_value v).
Proof. unfold template_value. mode_free. Qed.
#[local] Hint Resolve template_value_mode_free : mode_free.

Lemma defendHandler_set_mode_free (target : ref) (k : key) (v : value) :
  ignores_mode (defendHandler_set target k v).
Proof.
  unfold defendHandler_set, has_property, get_property, getName, template_key.
  mode_free.
Qed.

Lemma defendHandler_deleteProperty_mode_free (target : ref) (k : key) :
  ignores_mode (defendHandler_deleteProperty target k).
Proof. unfold defendHandler_deleteProperty, getName, template_key. mode_free. Qed.

Lemma defendHandler_defineProperty_mode_free (target : ref) (k : key) (desc : value) :
  ignores_mode (defendHandler_defineProperty target k desc).
Proof. unfold defendHandler_defineProperty, getName, template_key. mode_free. Qed.
#[local] Hint Resolve defendHandler_set_mode_free
  defendHandler_deleteProperty_mode_free defendHandler_defineProperty_mode_free : mode_free.

Lemma CheckDefendedObjectsUsedCorrectly_mode_free :
  ignores_mode CheckDefendedObjectsUsedCorrectly.
Proof. unfold CheckDefendedObjectsUsedCorrectly. mode_free. Qed.
#[local] Hint Resolve CheckDefendedObjectsUsedCorrectly_mode_free : mode_free.

(** X19.  Only [New] and the constructor of [DefendedBase] look at the
    mode.  Every other operation (reads, writes, deletions and definitions
    through a wrapper or on an ordinary object, [Release], [WasReleased],
    [SetWarningCallback] and the deferred check) does exactly the same in
    every mode: changing the mode does not switch the checks of existing
    wrappers off. *)
Theorem checks_outlive_mode_change (o : op) (stack : string) (md : string) (st : state) :
  match o with
  | OpConstruct _ _ | OpNew _ _ | OpSetMode _ => False
  | _ => True
  end →
  step o stack (set_mode md st) = ((step o stack st).1, set_mode md (step o stack st).2).
Proof.
  intros Ho. revert md st. change (ignores_mode (step o stack)).
  unfold step. apply ignores_mode_bind; [by apply ignores_mode_modify|]. intros _.
  destruct o; try done; simpl;
    unfold read, assign, delete_property, define_property, Release, WasReleased,
      SetWarningCallback, GetCallStack, get_property;
    mode_free.
Qed.

(** ** In the states a client can reach *)

(** X20.  In every state a client can reach, [Release] acts on wrappers and
    on nothing else: on a wrapper it records the instance with the call
    stack of the call, whatever was recorded before; on an ordinary object
    (what [New] returns for a class that is not defended, or in the modes
    "seal" and "off") it does nothing, and [WasReleased] keeps answering
    false. *)
Theorem reachable_Release_wrappers_only (ops : list (op * string)) (r : ref) (stack : string) :
  let st := run ops initial_state in
  (∀ target, heap st !! r = Some (Proxy target) →
     step (OpRelease (VObject r)) stack st
     = (Normal VUndefined,
        set_releasedObjects (<[target := stack]> (releasedObjects st)) (set_callStack stack st)))
  ∧ (∀ obj, heap st !! r = Some (Ordinary obj) →
       step (OpRelease (VObject r)) stack st = (Normal VUndefined, set_callStack stack st)
       ∧ step (OpWasReleased (VObject r)) stack st
         = (Normal (VBoolean false), set_callStack stack st)).
Proof.
  intros st. pose proof (run_well_formed ops initial_state well_formed_initial) as W.
  fold st in W. split.
  - intros target Hr. destruct (wf_wrapper _ W r target Hr) as [Hp _].
    unfold step, perform. munfold. simpl. rewrite Release_eq. simpl. by rewrite Hp.
  - intros obj Hr.
    assert (Hp : proxyToObject st !! r = None).
    { destruct (proxyToObject st !! r) as [t|] eqn:E; [|done].
      apply (wf_tracked _ W) in E. congruence. }
    unfold step, perform. munfold. simpl.
    rewrite Release_eq, WasReleased_eq. simpl. by rewrite Hp.
Qed.


(** X22.  In every state a client can reach, releasing one wrapper leaves
    every other instance as it was: no other instance becomes released, and
    [WasReleased] of another wrapper answers as before. *)
Theorem reachable_Release_independent (ops : list (op * string)) (p p' target target' : ref)
    (stack stack' : string) :
  let st := run ops initial_state in
  let st' := (step (OpRelease (VObject p)) stack st).2 in
  heap st !! p = Some (Proxy target) →
  heap st !! p' = Some (Proxy target') →
  p ≠ p' →
  target ≠ target'
  ∧ releasedObjects st' !! target' = releasedObjects st !! target'
  ∧ (step (OpWasReleased (VObject p')) stack' st').1
    = (step (OpWasReleased (VObject p')) stack' st).1.
Proof.
  intros st st' Hp Hp' Hne.
  pose proof (run_well_formed ops initial_state well_formed_initial) as W. fold st in W.
  destruct (wf_wrapper _ W p target Hp) as [Ht _].
  destruct (wf_wrapper _ W p' target' Hp') as [Ht' _].
  assert (Hdistinct : target ≠ target').
  { intros <-. by destruct (Hne (wf_distinct _ W p p' target Ht Ht')). }
  assert (Hrel : releasedObjects st' !! target' = releasedObjects st !! target').
  { subst st'. rewrite step_Release_releasedObjects. simpl. rewrite Ht.
    by rewrite lookup_insert_ne. }
  split; [done|]. split; [done|].
  unfold step, perform. munfold. simpl. rewrite !WasReleased_eq. simpl.
  assert (Hpto : proxyToObject st' !! p' = Some target').
  { subst st'. unfold step, perform. munfold. simpl. rewrite Release_eq. simpl.
    by rewrite Ht. }
  by rewrite Hpto, Ht', Hrel.
Qed.

(** ** More on reads, and on a sink that throws *)

(** X23.  A read through a wrapper of a key that the instance has, as an own
    property or through its prototype, returns its value and reports
    nothing, as long as the instance has not been released. *)
Theorem present_read_unreported (st : state) (p target : ref) (k : key) (stack : string) :
  heap st !! p = Some (Proxy target) →
  releasedObjects st !! target = None →
  has_property_in st target k = true →
  step (OpGet p k) stack st = (Normal (get_property_in st target k), set_callStack stack st).
Proof.
  intros Hp Hr Hk. rewrite (step_OpGet_eq p target) by done.
  unfold defendHandler_get, has_property, get_property. munfold.
  rewrite has_property_in_set_callStack, Hk. simpl. by rewrite Hr.
Qed.


(** X25.  In mode "defend", when the sink throws on the report of an
    inconsistent shape, [New] throws that error without closing the session
    of the instance it constructed: the wrapper stays registered as under
    construction. *)
Theorem New_shape_error_keeps_session (st : state) (c : classid) (args : list value)
    (record : list string) (e : exn) :
  mode st = "defend" →
  extends_DefendedBase (classes c) = true →
  releasedObjects st !! fresh_instance c st = None →
  body_completion (constructor_body (classes c) args) = Normal tt →
  typeProperties st !! c = Some record →
  let p := fresh_wrapper c st in
  let st1 := opened c args st in
  let differing := inconsistent_properties record (property_set st1 (VObject p)) in
  let msg := inconsistent_message (getName_in st1 (VFunction c)) differing in
  differing ≠ [] →
  sink_throws st msg = Some e →
  New (VFunction c) args st = (Throw e, add_report msg st1)
  ∧ al_get (ctorProxyToObject (add_report msg st1)) p = Some (fresh_instance c st)
  ∧ al_get (ctorObjectToProxy (add_report msg st1)) (fresh_instance c st) = Some p.
Proof.
  intros Hm Hc Hr Hbody Hrec p st1 differing msg Hdiff Hs.
  rewrite New_wrapped by done. rewrite Hbody. fold p st1.
  unfold verified_completion, verified.
  change (typeProperties st1) with (typeProperties st). rewrite Hrec.
  fold differing. rewrite bool_decide_eq_false_2 by by intros ?%nil_length_inv.
  fold msg. unfold reported. change (sink_throws st1 msg) with (sink_throws st msg).
  rewrite Hs. split; [done|]. simpl. split; apply al_get_al_set_eq.
Qed.

End properties.

(** * The example program *)

Lemma delete_define_rejected_witness :
  heap under_construction !! 2 = Some (Proxy 1)
  ∧ al_has (ctorObjectToProxy under_construction) 1 = true
  ∧ (∃ e, delete_property (host := example_host) 2 (KString "_str") under_construction
          = (Throw e, under_construction))
  ∧ (∃ e, define_property (host := example_host) 2 (KString "baz") (VNumber 0) under_construction
          = (Throw e, under_construction)).
Proof.
  split; [by vm_compute|]. split; [by vm_compute|].
  split.
  - apply (delete_define_rejected (host := example_host) under_construction 2 1
             (KString "_str") (VNumber 0)). by vm_compute.
  - apply (delete_define_rejected (host := example_host) under_construction 2 1
             (KString "baz") (VNumber 0)). by vm_compute.
Defined.

(** [Release] from a call site whose stack trace is empty: the instance is
    in the release record and a read of it is reported as the read of a
    released object, yet [WasReleased] answers false. *)
Lemma WasReleased_query_witness :
  WasReleased (VObject 2) finalized = (Normal false, finalized)
  ∧ (∃ context,
       releasedObjects
         (example_run [] (example_step (OpRelease (VObject 2)) "" finalized).2) !! 1
       = Some context
       ∧ WasReleased (VObject 2)
           (example_run [] (example_step (OpRelease (VObject 2)) "" finalized).2)
         = (Normal (truthy_string context),
            example_run [] (example_step (OpRelease (VObject 2)) "" finalized).2)
       ∧ context = "")
  ∧ (WasReleased (VObject 2) (example_step (OpRelease (VObject 2)) "" finalized).2).1
    = Normal false
  ∧ reports (example_step (OpGet 2 (KString "_str")) "at access"
               (example_step (OpRelease (VObject 2)) "" finalized).2).2
    = [{| rep_sink := None;
          rep_msg := "Accessed property '_str' on a released object 'Test'" +:+ nl
                     +:+ "Object was originally released at: )" +:+ nl
                     +:+ "Call stack at access: ";
          rep_stack := "at access" |}].
Proof.
  destruct (WasReleased_query (host := example_host) finalized 2 1 "" [])
    as (H1 & (context & H2 & H3 & H4 & _) & _).
  - by vm_compute.
  - by vm_compute.
  - by vm_compute.
  - split; [exact H1|]. split.
    + exists context. split; [exact H2|]. split; [exact H3|]. apply H4. constructor.
    + split; by vm_compute.
Defined.

(** After a [Release] from a call site with a stack trace, [WasReleased]
    answers true, also after further operations. *)
Example WasReleased_after_Release :
  let st' := example_run [(OpRelease (VObject 2), "at release");
                          (OpGet 2 (KString "_str"), "at read");
                          (OpRelease (VObject 2), "at second release")] finalized in
  WasReleased (VObject 2) st' = (Normal true, st').
Proof. by vm_compute. Qed.





Lemma shape_record_baseline_witness :
  typeProperties two_shapes !! InconsistentProperties
  = Some ["_commonProperty"; "_withFlag"]
  ∧ property_set two_shapes (VObject 5) = ["_commonProperty"; "_withoutFlag"]
  ∧ inconsistent_properties ["_commonProperty"; "_withFlag"]
      (property_set two_shapes (VObject 5))
    = ["_withFlag"; "_withoutFlag"]
  ∧ reports (VerifyObjectPropertiesConsistent (host := example_host) InconsistentProperties
               (VObject 5) two_shapes).2
    = [{| rep_sink := None;
          rep_msg := "'InconsistentProperties' constructor creates inconsistent properties: "
                     +:+ "_withFlag, _withoutFlag";
          rep_stack := "at second" |}]
  ∧ typeProperties (VerifyObjectPropertiesConsistent (host := example_host) InconsistentProperties
                      (VObject 5) two_shapes).2
    = typeProperties two_shapes.
Proof.
  assert (H : typeProperties two_shapes !! InconsistentProperties
              = Some ["_commonProperty"; "_withFlag"]) by by vm_compute.
  destruct (shape_record_baseline (host := example_host) two_shapes
              InconsistentProperties (VObject 5) []) as (_ & _ & Hlater & _).
  destruct (Hlater _ H) as (H1 & _ & _ & H2 & _).
  { apply (bool_decide_unpack (NoDup ["_commonProperty"; "_withFlag"])). by vm_compute. }
  split; [exact H|]. split; [by vm_compute|]. split; [by vm_compute|].
  split; [|exact H1].
  rewrite H2. by vm_compute.
Defined.

Lemma New_constructor_error_witness :
  ctorObjectToProxy under_construction = [(1, 2)]
  ∧ (example_step (OpNew (VFunction Failing) []) "at main" under_construction).1
    = Throw (Thrown (VString "boom"))
  ∧ ctorProxyToObject
      (New (host := example_host) (VFunction Failing) []
         (set_callStack "at main" under_construction)).2 = []
  ∧ ctorObjectToProxy
      (New (host := example_host) (VFunction Failing) []
         (set_callStack "at main" under_construction)).2 = []
  ∧ typeProperties
      (New (host := example_host) (VFunction Failing) []
         (set_callStack "at main" under_construction)).2
    = typeProperties under_construction.
Proof.
  split; [by vm_compute|]. split; [by vm_compute|].
  destruct (New_constructor_error (host := example_host)
              (set_callStack "at main" under_construction) Failing []
              (Thrown (VString "boom"))
              (construct (host := example_host) Failing []
                 (set_callStack "at main" under_construction)).2)
    as (_ & H1 & H2 & H3).
  - by vm_compute.
  - split; [exact H1|]. split; [exact H2|exact H3].
Defined.

Lemma New_checks_plain_classes_witness :
  typeProperties plain_recorded !! Plain = Some ["a"; "b"]
  ∧ (example_step (OpNew (VFunction Plain) [VBoolean false]) "at second" plain_recorded).1
    = Normal (VObject 1)
  ∧ heap (example_step (OpNew (VFunction Plain) [VBoolean false]) "at second"
            plain_recorded).2 !! 1
    = Some (Ordinary {| obj_class := Plain; obj_props := [(KString "a", VNumber 1)];
                        obj_extensible := true |})
  ∧ reports (New (host := example_host) (VFunction Plain) [VBoolean false]
               (set_callStack "at second" plain_recorded)).2
    = [{| rep_sink := None;
          rep_msg := "'Plain' constructor creates inconsistent properties: b";
          rep_stack := "at second" |}].
Proof.
  split; [by vm_compute|]. split; [by vm_compute|]. split; [by vm_compute|].
  destruct (New_checks_plain_classes (host := example_host)
              (set_callStack "at second" plain_recorded) Plain [VBoolean false] (VObject 1)
              (construct (host := example_host) Plain [VBoolean false]
                 (set_callStack "at second" plain_recorded)).2)
    as (HNew & _ & _ & Hlater).
  - by vm_compute.
  - by vm_compute.
  - by vm_compute.
  - rewrite HNew. simpl.
    destruct (Hlater ["a"; "b"]) as (_ & _ & Hreports).
    + by vm_compute.
    + by vm_compute.
    + rewrite Hreports. by vm_compute.
Defined.





(** A write of a symbol key that is absent from a finalized instance, or of
    any symbol key on a released instance, raises a TypeError to the caller
    instead of being reported and discarded: the warning text cannot be
    built from a symbol. *)
Example write_symbol_key_throws :
  heap finalized !! 2 = Some (Proxy 1)
  ∧ ctorObjectToProxy finalized = []
  ∧ example_step (OpSet 2 (KSymbol "tag") (VNumber 1)) "at write" finalized
    = (Throw (TypeError "Cannot convert a Symbol value to a string"),
       set_callStack "at write" finalized)
  ∧ example_step (OpSet 2 (KSymbol "tag") (VNumber 1)) "at write" released
    = (Throw (TypeError "Cannot convert a Symbol value to a string"),
       set_callStack "at write" released)
  ∧ example_step (OpSet 2 (KString "fresh") (VSymbol "tag")) "at write" finalized
    = (Throw (TypeError "Cannot convert a Symbol value to a string"),
       set_callStack "at write" finalized).
Proof. by vm_compute. Qed.

(** The two constructions of [example.js]: the second instance differs from
    the recorded shape and is reported once, naming both differing keys. *)
Example inconsistent_shapes_reported_once :
  reports (example_run
             [(OpNew (VFunction InconsistentProperties) [VBoolean true], "at first");
              (OpNew (VFunction InconsistentProperties) [VBoolean false], "at second")]
             initial_state)
  = [{| rep_sink := None;
        rep_msg := "'InconsistentProperties' constructor creates inconsistent properties: "
                   +:+ "_withFlag, _withoutFlag";
        rep_stack := "at second" |}].
Proof. by vm_compute. Qed.

(** Once the target has been made non-extensible (as
    [Object.preventExtensions] on the wrapper does), a valid write to a key
    that the instance only inherits cannot create the own property. *)
Example write_inherited_key_not_extensible :
  has_property_in (host := example_host) (set_extensible 1 false finalized) 1 (KString "GetString")
  = true
  ∧ (example_step (OpSet 2 (KString "GetString") (VFunction 103)) "at write"
       (set_extensible 1 false finalized)).1
    = Throw (TypeError "Cannot add property, object is not extensible").
Proof. by vm_compute. Qed.



Lemma quiet_keys_never_reported_witness :
  releasedObjects released !! 1 = Some "at release"
  ∧ example_step (OpGet 2 (KString "splice")) "at access" released
    = (Normal VUndefined, set_callStack "at access" released)
  ∧ example_step (OpGet 2 (KSymbol "Symbol.toPrimitive")) "at access" released
    = (Normal VUndefined, set_callStack "at access" released).
Proof.
  split; [by vm_compute|]. split.
  - rewrite (quiet_keys_never_reported (host := example_host) released 2 1);
      [by vm_compute|by vm_compute|by right].
  - rewrite (quiet_keys_never_reported (host := example_host) released 2 1);
      [by vm_compute|by vm_compute|by left].
Defined.

Lemma inconsistent_properties_listing_witness :
  inconsistent_properties ["a"; "b"; "c"; "d"] ["e"; "d"; "a"; "f"] = ["b"; "c"; "e"; "f"].
Proof.
  rewrite inconsistent_properties_listing; [by vm_compute|].
  apply (bool_decide_unpack (NoDup ["a"; "b"; "c"; "d"])). by vm_compute.
Defined.

(** An object lists its array indices first, in ascending order, and then
    its other keys in creation order. *)
Example array_indices_listed_first :
  own_keys_order ["b"; "10"; "a"; "2"; "01"] = ["2"; "10"; "b"; "a"; "01"].
Proof. by vm_compute. Qed.

(** The text of some numbers. *)
Example Number_toString_examples :
  Number_toString 123 = Some "123"
  ∧ Number_toString (-5) = Some "-5"
  ∧ Number_toString (10 ^ 20) = Some "100000000000000000000"
  ∧ Number_toString (10 ^ 21) = Some "1e+21"
  ∧ Number_toString (-15 * 10 ^ 20) = Some "-1.5e+21".
Proof. by vm_compute. Qed.

(** The name in a message follows the [constructor] member: after a write
    of another class to it has gone through the wrapper, the instance is
    named after that class. *)
Lemma getName_never_empty_witness :
  getName_in (host := example_host) finalized (VObject 1) = "Test"
  ∧ getName_in (host := example_host)
      (example_step (OpSet 2 (KString "constructor") (VFunction Plain)) "at write"
         finalized).2 (VObject 1)
    = "Plain".
Proof.
  destruct (getName_never_empty (host := example_host) finalized (VObject 1))
    as (_ & _ & H1 & H2).
  split.
  - rewrite (H1 1 {| obj_class := Test; obj_props := [(KString "_str", VString "foo")];
                     obj_extensible := true |} Test); by vm_compute.
  - rewrite (H2 2 1 {| obj_class := Test; obj_props := [(KString "_str", VString "foo")];
                       obj_extensible := true |} Test Plain "at write"); by vm_compute.
Defined.

Lemma shape_check_ignores_order_witness :
  typeProperties reordered !! Reordered = Some ["a"; "b"]
  ∧ for_in_keys reordered (VObject 5) = ["b"; "a"]
  ∧ VerifyObjectPropertiesConsistent (host := reorder_host) Reordered (VObject 5) reordered
    = (Normal tt, reordered).
Proof.
  split; [by vm_compute|]. split; [by vm_compute|].
  apply (shape_check_ignores_order (host := reorder_host) reordered Reordered (VObject 5)
           ["a"; "b"]).
  - by vm_compute.
  - apply (bool_decide_unpack (NoDup ["a"; "b"])). by vm_compute.
  - intros k. change (for_in_keys reordered (VObject 5)) with ["b"; "a"].
    rewrite !elem_of_cons, !elem_of_nil. tauto.
Defined.

Lemma New_mode_off_witness :
  mode off_mode = "off"
  ∧ New (host := example_host) (VFunction Test) [] off_mode
    = (Normal (VObject 0),
       set_heap {[0 := Ordinary {| obj_class := Test;
                                   obj_props := [(KString "_str", VString "foo")];
                                   obj_extensible := true |}]} off_mode)
  ∧ (example_step (OpSet 0 (KString "_newProperty") (VNumber 1)) "at write"
       (New (host := example_host) (VFunction Test) [] off_mode).2).1
    = Normal (VNumber 1).
Proof.
  split; [by vm_compute|].
  destruct (New_mode_off (host := example_host) off_mode Test []) as [_ H];
    [by vm_compute|].
  rewrite H. split; by vm_compute.
Defined.

Lemma New_mode_seal_witness :
  mode seal_mode = "seal"
  ∧ New (host := example_host) (VFunction Test) [] seal_mode
    = (Normal (VObject 0),
       set_heap {[0 := Ordinary {| obj_class := Test;
                                   obj_props := [(KString "_str", VString "foo")];
                                   obj_extensible := false |}]} seal_mode)
  ∧ (example_step (OpSet 0 (KString "_str") (VNumber 123)) "at write"
       (New (host := example_host) (VFunction Test) [] seal_mode).2).1
    = Normal (VNumber 123)
  ∧ ∃ msg, (example_step (OpSet 0 (KString "_newProperty") (VNumber 1)) "at write"
              (New (host := example_host) (VFunction Test) [] seal_mode).2).1
           = Throw (TypeError msg).
Proof.
  split; [by vm_compute|].
  destruct (New_mode_seal (host := example_host) seal_mode Test [])
    as (H1 & _ & H2 & H3); [by vm_compute..|].
  assert (Hfresh : fresh (dom (heap seal_mode)) = 0) by by vm_compute.
  rewrite Hfresh in H1, H2, H3.
  split; [rewrite H1; by vm_compute|].
  match type of H1 with
  | _ = (_, ?s) =>
      replace (New (host := example_host) (VFunction Test) [] seal_mode).2 with s
        by by rewrite H1
  end.
  split.
  - rewrite H2; by vm_compute.
  - destruct (H3 (KString "_newProperty") (VNumber 1) "at write") as [msg Hmsg];
      [by vm_compute|].
    exists msg. by rewrite Hmsg.
Defined.

Lemma New_defended_wrapper_witness :
  New (host := example_host) (VFunction Test) [] finalized
  = (Normal (VObject 5),
     (New (host := example_host) (VFunction Test) [] finalized).2)
  ∧ heap (New (host := example_host) (VFunction Test) [] finalized).2 !! 5 = Some (Proxy 4)
  ∧ heap (New (host := example_host) (VFunction Test) [] finalized).2 !! 4
    = Some (Ordinary {| obj_class := Test; obj_props := [(KString "_str", VString "foo")];
                        obj_extensible := true |})
  ∧ ctorObjectToProxy (New (host := example_host) (VFunction Test) [] finalized).2 = [].
Proof.
  assert (H : New (host := example_host) (VFunction Test) [] finalized
              = (Normal (VObject 5),
                 (New (host := example_host) (VFunction Test) [] finalized).2))
    by by vm_compute.
  destruct (New_defended_wrapper (host := example_host) finalized
              (New (host := example_host) (VFunction Test) [] finalized).2
              Test [] (VObject 5))
    as (_ & _ & _ & H1 & H2 & _); [by vm_compute|by vm_compute|by vm_compute|exact H|].
  assert (Hr : fresh_instance Test finalized = 4) by by vm_compute.
  assert (Hp : fresh_wrapper Test finalized = 5) by by vm_compute.
  rewrite Hr, Hp in H1. rewrite Hr in H2.
  split; [exact H|]. split; [exact H1|]. split; [exact H2|]. by vm_compute.
Defined.

Lemma New_restores_sessions_witness :
  ctorObjectToProxy under_construction = [(1, 2)]
  ∧ al_get (ctorProxyToObject (New (host := example_host) (VFunction Test) []
                                 under_construction).2) 2 = Some 1
  ∧ al_get (ctorObjectToProxy (New (host := example_host) (VFunction Test) []
                                 under_construction).2) 1 = Some 2
  ∧ al_get (ctorProxyToObject (New (host := example_host) (VFunction Test) []
                                 under_construction).2) 5 = None
  ∧ al_get (ctorObjectToProxy (New (host := example_host) (VFunction Test) []
                                 under_construction).2) 4 = None.
Proof.
  split; [by vm_compute|].
  destruct (New_restores_sessions (host := example_host) under_construction
              (construct (host := example_host) Test [] under_construction).2
              (New (host := example_host) (VFunction Test) [] under_construction).2
              Test [] (VObject 5) (VObject 5)) as (_ & H1 & H2 & _ & _ & H3);
    [by vm_compute..|].
  split; [apply H1; by vm_compute|]. split; [apply H2; by vm_compute|].
  apply (H3 5 4); by vm_compute.
Defined.

Lemma New_completes_as_new_witness :
  (New (host := example_host) (VFunction Failing) [] finalized).1
  = Throw (Thrown (VString "boom"))
  ∧ New (host := example_host) (VString "Test") [] finalized
    = (Throw (TypeError "expected function"), finalized)
  ∧ Defend (host := example_host) (VFunction Test) finalized
    = (Throw (TypeError "expected object"), finalized).
Proof.
  destruct (New_completes_as_new (host := example_host) finalized (VString "Test") [])
    as (_ & H3 & H2).
  destruct (New_completes_as_new (host := example_host) finalized (VFunction Failing) [])
    as [H1 _].
  split; [|split].
  - rewrite (H1 Failing); [by vm_compute|done|by intros msg].
  - apply H2. by intros c.
  - apply H3. by right.
Defined.

Lemma bare_new_opens_session_witness :
  ctorObjectToProxy (construct (host := example_host) Failing [] initial_state).2 = [(1, 2)]
  ∧ (construct (host := example_host) Failing [] initial_state).1
    = Throw (Thrown (VString "boom"))
  ∧ checkTimerId (construct (host := example_host) Failing [] initial_state).2 = 1%Z
  ∧ checkTimerId (construct (host := example_host) Test [] under_construction).2 = 1%Z
  ∧ timers (construct (host := example_host) Test [] under_construction).2 = 1%Z.
Proof.
  destruct (bare_new_opens_session (host := example_host) initial_state Failing [])
    as (H1 & _ & _ & _ & _ & _ & _ & _ & _ & H2 & H3); [by vm_compute..|].
  destruct (bare_new_opens_session (host := example_host) under_construction Test [])
    as (_ & _ & _ & _ & _ & _ & _ & _ & _ & H4 & H5); [by vm_compute..|].
  split; [by vm_compute|]. split; [rewrite H1; by vm_compute|].
  split; [rewrite H2; by vm_compute|]. split; [rewrite H4|rewrite H5]; by vm_compute.
Defined.

Lemma Defend_idempotent_witness :
  ctorProxyToObject under_construction = [(2, 1)]
  ∧ ctorProxyToObject (Defend (host := example_host) (VObject 2) under_construction).2 = []
  ∧ Defend (host := example_host) (VObject 2)
      (Defend (host := example_host) (VObject 2) under_construction).2
    = (Normal (VObject 2), (Defend (host := example_host) (VObject 2) under_construction).2).
Proof.
  split; [by vm_compute|]. split; [by vm_compute|].
  apply (Defend_idempotent (host := example_host) (VObject 2) (VObject 2) under_construction).
  by vm_compute.
Defined.

Lemma checks_outlive_mode_change_witness :
  mode (example_run [(OpSetMode (VString "off"), "at main")] finalized) = "off"
  ∧ reports (example_step (OpSet 2 (KString "_newProperty") (VNumber 1)) "at write"
               (example_run [(OpSetMode (VString "off"), "at main")] finalized)).2
    = [{| rep_sink := None;
          rep_msg := "Set non-existent property '_newProperty' to '1' on defended object 'Test'";
          rep_stack := "at write" |}].
Proof.
  split; [by vm_compute|].
  assert (E : example_run [(OpSetMode (VString "off"), "at main")] finalized
              = set_mode "off" finalized) by by vm_compute.
  rewrite E.
  rewrite (checks_outlive_mode_change (host := example_host)
             (OpSet 2 (KString "_newProperty") (VNumber 1)) "at write" "off" finalized);
    [by vm_compute|done].
Defined.

Lemma reachable_Release_wrappers_only_witness :
  example_step (OpRelease (VObject 2)) "at release" finalized
  = (Normal VUndefined,
     set_releasedObjects {[1 := "at release"]} (set_callStack "at release" finalized))
  ∧ example_step (OpWasReleased (VObject 0)) "at query"
      (example_run [(OpSetMode (VString "off"), "at main");
                    (OpNew (VFunction Test) [], "at main");
                    (OpRelease (VObject 0), "at release")] initial_state)
    = (Normal (VBoolean false),
       set_callStack "at query"
         (example_run [(OpSetMode (VString "off"), "at main");
                       (OpNew (VFunction Test) [], "at main");
                       (OpRelease (VObject 0), "at release")] initial_state)).
Proof.
  destruct (reachable_Release_wrappers_only (host := example_host)
              [(OpNew (VFunction Test) [], "at main")] 2 "at release") as [H1 _].
  destruct (reachable_Release_wrappers_only (host := example_host)
              [(OpSetMode (VString "off"), "at main");
               (OpNew (VFunction Test) [], "at main");
               (OpRelease (VObject 0), "at release")] 0 "at query") as [_ H2].
  split.
  - unfold finalized. rewrite (H1 1); by vm_compute.
  - destruct (H2 {| obj_class := Test; obj_props := [(KString "_str", VString "foo")];
                    obj_extensible := true |}) as [_ H3]; [by vm_compute|].
    exact H3.
Defined.


Lemma reachable_Release_independent_witness :
  releasedObjects
    (example_step (OpRelease (VObject 2)) "at release"
       (example_run [(OpNew (VFunction Test) [], "at first");
                     (OpNew (VFunction Test) [], "at second")] initial_state)).2 !! 4
  = None
  ∧ (example_step (OpWasReleased (VObject 5)) "at query"
       (example_step (OpRelease (VObject 2)) "at release"
          (example_run [(OpNew (VFunction Test) [], "at first");
                        (OpNew (VFunction Test) [], "at second")] initial_state)).2).1
    = Normal (VBoolean false).
Proof.
  destruct (reachable_Release_independent (host := example_host)
              [(OpNew (VFunction Test) [], "at first");
               (OpNew (VFunction Test) [], "at second")] 2 5 1 4 "at release" "at query")
    as (_ & H1 & H2); [by vm_compute|by vm_compute|lia|].
  split.
  - rewrite H1. by vm_compute.
  - rewrite H2. by vm_compute.
Defined.

Lemma present_read_unreported_witness :
  example_step (OpGet 2 (KString "GetString")) "at call" finalized
  = (Normal (VFunction 102), set_callStack "at call" finalized)
  ∧ example_step (OpGet 2 (KString "_str")) "at read" finalized
    = (Normal (VString "foo"), set_callStack "at read" finalized).
Proof.
  split.
  - rewrite (present_read_unreported (host := example_host) finalized 2 1);
      by vm_compute.
  - rewrite (present_read_unreported (host := example_host) finalized 2 1);
      by vm_compute.
Defined.


Lemma New_shape_error_keeps_session_witness :
  (New (host := example_host) (VFunction InconsistentProperties) [VBoolean false]
     throwing_recorded).1
  = Throw (Thrown (VString
      ("'InconsistentProperties' constructor creates inconsistent properties: "
       +:+ "_withFlag, _withoutFlag")))
  ∧ ctorObjectToProxy
      (New (host := example_host) (VFunction InconsistentProperties) [VBoolean false]
         throwing_recorded).2
    = [(4, 5)].
Proof.
  destruct (New_shape_error_keeps_session (host := example_host) throwing_recorded
              InconsistentProperties [VBoolean false] ["_commonProperty"; "_withFlag"]
              (Thrown (VString
                 ("'InconsistentProperties' constructor creates inconsistent properties: "
                  +:+ "_withFlag, _withoutFlag"))))
    as (H & _); [by vm_compute..|].
  rewrite H. split; by vm_compute.
Defined.
